(** * FileShare signaling server: the session store

    A shallow embedding of [SessionStore] (session-store.ts), of the
    [/stats] and [/health] handlers of the two server entry points and of
    [WebSocketHandler] (ws-handler.ts), with the properties of the session
    registry and of the message handling stated and proved over it.

    Conventions.
    - Timestamps are the integers returned by [Date.now()] (milliseconds);
      they are far below 2^53, so the double arithmetic of the source is
      exact and is modelled in [Z].
    - Every call of [Date.now()], [randomUUID()] and [randomBytes(32)] is an
      input of the operation that makes it.
    - A socket ([socket: any]) is modelled by the identity of the WebSocket
      object; [socket.close()] appends that identity to a trace.
    - [Map<string, V>] keeps insertion order; it is modelled as an
      association list in insertion order.
    - A message is modelled after [JSON.parse]: its fields have the types
      of [interface SignalingMessage] or are absent, and the payload
      properties the handler reads are strings or absent. *)

From Stdlib Require Import String List ZArith Lia Bool.
Import ListNotations.

Set Implicit Arguments.

(** ** Insertion-ordered maps with string keys (the ECMAScript [Map]) *)

Module JsMap.

Section WithValue.

Variable V : Type.

Definition t : Type := list (string * V).

Definition empty : t := [].

(** [m.get(k)] *)
Fixpoint get (k : string) (m : t) : option V :=
  match m with
  | [] => None
  | (k', v) :: m' => if String.eqb k k' then Some v else get k m'
  end.

(** [m.has(k)] *)
Definition has (k : string) (m : t) : bool :=
  match get k m with Some _ => true | None => false end.

(** [m.set(k, v)]: an existing key keeps its position, a new key goes
    last. *)
Fixpoint set (k : string) (v : V) (m : t) : t :=
  match m with
  | [] => [(k, v)]
  | (k', v') :: m' =>
      if String.eqb k k' then (k, v) :: m' else (k', v') :: set k v m'
  end.

(** [m.delete(k)] *)
Fixpoint delete (k : string) (m : t) : t :=
  match m with
  | [] => []
  | (k', v') :: m' =>
      if String.eqb k k' then delete k m' else (k', v') :: delete k m'
  end.

(** [m.size] *)
Definition size (m : t) : nat := length m.

(** [m.keys()], [m.values()], in iteration order *)
Definition keys (m : t) : list string := map fst m.
Definition values (m : t) : list V := map snd m.

(** The keys of a [Map] are pairwise distinct. *)
Definition wf (m : t) : Prop := NoDup (keys m).

End WithValue.

Arguments empty {V}.

End JsMap.

(** ** Data model (session-store.ts) *)

(** [socket: any]: the identity of a WebSocket object. *)
Definition Socket : Type := nat.

(** [interface ClientConnection] *)
Record ClientConnection : Type := mkClient {
  clientId : string;
  displayName : string;
  socket : Socket;
  joinedAt : Z
}.

(** [interface Session] *)
Record Session : Type := mkSession {
  sessionId : string;
  token : string;
  createdAt : Z;
  expiresAt : Z;
  clients : JsMap.t ClientConnection
}.

(** The private fields [sessions] and [totalSessionsCreated] of
    [class SessionStore], together with the two traces of what the store does
    to the outside: [closeLog], the sockets on which [close()] was called, in
    call order, and [consoleLog], the numbers printed by
    "[SessionStore] Cleaned up N expired sessions". The timer handle
    [cleanupInterval] carries no data. *)
Record State : Type := mkState {
  sessions : JsMap.t Session;
  totalSessionsCreated : Z;
  closeLog : list Socket;
  consoleLog : list nat
}.

(** [new SessionStore()] *)
Definition init : State :=
  {| sessions := JsMap.empty; totalSessionsCreated := 0;
     closeLog := []; consoleLog := [] |}.

(** ** The store monad *)

Definition M (A : Type) : Type := State -> A * State.

Definition ret {A : Type} (a : A) : M A := fun st => (a, st).

Definition bind {A B : Type} (c : M A) (k : A -> M B) : M B :=
  fun st => let (a, st') := c st in k a st'.

Declare Scope store_scope.
Delimit Scope store_scope with store.
Notation "x <- c ;; k" := (bind c (fun x => k))
  (at level 61, c at next level, right associativity) : store_scope.
Notation "c ;; k" := (bind c (fun _ => k))
  (at level 61, right associativity) : store_scope.
Local Open Scope store_scope.
Local Open Scope Z_scope.

(** [this.sessions.get(sessionId)] *)
Definition sessions_get (sessionId : string) : M (option Session) :=
  fun st => (JsMap.get sessionId (sessions st), st).

(** [this.sessions.set(sessionId, session)] *)
Definition sessions_set (sessionId : string) (session : Session) : M unit :=
  fun st =>
    (tt, {| sessions := JsMap.set sessionId session (sessions st);
            totalSessionsCreated := totalSessionsCreated st;
            closeLog := closeLog st; consoleLog := consoleLog st |}).

(** [this.sessions.delete(sessionId)] *)
Definition sessions_delete (sessionId : string) : M unit :=
  fun st =>
    (tt, {| sessions := JsMap.delete sessionId (sessions st);
            totalSessionsCreated := totalSessionsCreated st;
            closeLog := closeLog st; consoleLog := consoleLog st |}).

(** The entries of [this.sessions], in iteration order. *)
Definition sessions_entries : M (list (string * Session)) :=
  fun st => (sessions st, st).

(** [this.totalSessionsCreated++] *)
Definition incr_totalSessionsCreated : M unit :=
  fun st =>
    (tt, {| sessions := sessions st;
            totalSessionsCreated := totalSessionsCreated st + 1;
            closeLog := closeLog st; consoleLog := consoleLog st |}).

(** [try { client.socket.close() } catch (e) {}]: the call is made, whatever
    it throws is dropped. *)
Definition socket_close (s : Socket) : M unit :=
  fun st =>
    (tt, {| sessions := sessions st;
            totalSessionsCreated := totalSessionsCreated st;
            closeLog := closeLog st ++ [s]; consoleLog := consoleLog st |}).

(** [console.log(`[SessionStore] Cleaned up ${cleaned} expired sessions`)] *)
Definition console_log (cleaned : nat) : M unit :=
  fun st =>
    (tt, {| sessions := sessions st;
            totalSessionsCreated := totalSessionsCreated st;
            closeLog := closeLog st; consoleLog := consoleLog st ++ [cleaned] |}).

(** [for (const x of l) { f(x) }] *)
Fixpoint for_each {A : Type} (l : list A) (f : A -> M unit) : M unit :=
  match l with
  | [] => ret tt
  | x :: l' => f x ;; for_each l' f
  end.

(** The session object is shared between the registry and its readers:
    [session.clients.set/delete] on the object found under [sessionId]
    changes the registry entry in place. *)
Definition with_clients (session : Session)
    (c : JsMap.t ClientConnection) : Session :=
  {| sessionId := sessionId session; token := token session;
     createdAt := createdAt session; expiresAt := expiresAt session;
     clients := c |}.

(** ** Operations of [SessionStore] *)

(** Session lifetime: [60 * 60 * 1000] *)
Definition TTL : Z := 60 * 60 * 1000.

(** [createSession()]; [sessionId] and [token] are the results of
    [generateId()] and [generateToken()], [now] that of [Date.now()]. *)
Definition createSession (sessionId token : string) (now : Z) : M Session :=
  let session :=
    {| sessionId := sessionId; token := token; createdAt := now;
       expiresAt := now + TTL; clients := JsMap.empty |} in
  sessions_set sessionId session ;;
  incr_totalSessionsCreated ;;
  ret session.

(** [deleteSession(sessionId)] *)
Definition deleteSession (sessionId : string) : M unit :=
  session <- sessions_get sessionId ;;
  match session with
  | Some session =>
      for_each (JsMap.values (clients session))
               (fun client => socket_close (socket client)) ;;
      sessions_delete sessionId
  | None => ret tt
  end.

(** [getSession(sessionId)] *)
Definition getSession (sessionId : string) (now : Z) : M (option Session) :=
  session <- sessions_get sessionId ;;
  match session with
  | Some s =>
      if now >? expiresAt s
      then deleteSession sessionId ;; ret None
      else ret (Some s)
  | None => ret None
  end.

(** [validateToken(sessionId, token)] *)
Definition validateToken (sessionId tok : string) (now : Z) : M bool :=
  session <- getSession sessionId now ;;
  ret (match session with
       | Some s => String.eqb (token s) tok
       | None => false
       end).

(** [addClient(sessionId, clientId, displayName, socket)]; [now] is read by
    [getSession], [joinedNow] by the construction of the client record. *)
Definition addClient (sessionId clientId displayName : string)
    (socket : Socket) (now joinedNow : Z) : M bool :=
  session <- getSession sessionId now ;;
  match session with
  | None => ret false
  | Some session =>
      if (2 <=? JsMap.size (clients session))%nat then ret false
      else
        let client :=
          {| clientId := clientId; displayName := displayName;
             socket := socket; joinedAt := joinedNow |} in
        sessions_set sessionId
          (with_clients session (JsMap.set clientId client (clients session))) ;;
        ret true
  end.

(** [removeClient(sessionId, clientId)] *)
Definition removeClient (sessionId clientId : string) : M unit :=
  session <- sessions_get sessionId ;;
  match session with
  | Some session =>
      let clients' := JsMap.delete clientId (clients session) in
      sessions_set sessionId (with_clients session clients') ;;
      if (JsMap.size clients' =? 0)%nat then deleteSession sessionId
      else ret tt
  | None => ret tt
  end.

(** [getClient(sessionId, clientId)] *)
Definition getClient (sessionId clientId : string) (now : Z)
    : M (option ClientConnection) :=
  session <- getSession sessionId now ;;
  ret (match session with
       | Some s => JsMap.get clientId (clients s)
       | None => None
       end).

(** [getOtherClient(sessionId, clientId)]: the first entry, in iteration
    order, whose key differs from [clientId]. *)
Definition getOtherClient (sessionId clientId : string) (now : Z)
    : M (option ClientConnection) :=
  session <- getSession sessionId now ;;
  ret (match session with
       | None => None
       | Some s =>
           option_map snd
             (find (fun e => negb (String.eqb (fst e) clientId)) (clients s))
       end).

(** [getClients(sessionId)] *)
Definition getClients (sessionId : string) (now : Z)
    : M (list ClientConnection) :=
  session <- getSession sessionId now ;;
  ret (match session with
       | Some s => JsMap.values (clients s)
       | None => []
       end).

(** The loop of [cleanupExpiredSessions]. Deleting the entry under iteration
    does not disturb a [Map] iterator, and the loop deletes no other entry,
    so the entries visited are those present when the loop starts. *)
Fixpoint sweep_loop (now : Z) (entries : list (string * Session))
    (cleaned : nat) : M nat :=
  match entries with
  | [] => ret cleaned
  | (sessionId, session) :: rest =>
      if now >? expiresAt session
      then deleteSession sessionId ;; sweep_loop now rest (S cleaned)
      else sweep_loop now rest cleaned
  end.

(** [cleanupExpiredSessions()], run by the five-minute timer. *)
Definition cleanupExpiredSessions (now : Z) : M unit :=
  entries <- sessions_entries ;;
  cleaned <- sweep_loop now entries 0%nat ;;
  if (0 <? cleaned)%nat then console_log cleaned else ret tt.

(** [getActiveSessionCount()] *)
Definition getActiveSessionCount (st : State) : Z :=
  Z.of_nat (JsMap.size (sessions st)).

(** [getActiveConnectionCount()] *)
Definition getActiveConnectionCount (st : State) : Z :=
  fold_left (fun count session => count + Z.of_nat (JsMap.size (clients session)))
            (JsMap.values (sessions st)) 0.

(** [getTotalSessionsCreated()] *)
Definition getTotalSessionsCreated (st : State) : Z :=
  totalSessionsCreated st.

(** [cleanup()], on shutdown. [clearInterval] stops the timer; deleting the
    key under iteration does not disturb the iterator, so the keys visited
    are those present when the loop starts. *)
Definition cleanup : M unit :=
  entries <- sessions_entries ;;
  for_each (JsMap.keys entries) deleteSession.

(** ** The [/stats] handlers *)

(** The values that occur in the JSON bodies of the diagnostic endpoints. *)
Inductive JValue : Type :=
| JNum (n : Z)
| JStr (s : string)
| JDouble (mantissa exponent : Z).

(** A JSON object: its fields in the order the handler writes them. *)
Definition JObject : Type := list (string * JValue).

(** [fastify.get('/stats', ...)] of the plain entry point. *)
Definition stats (st : State) : JObject :=
  [ ("activeSessions"%string, JNum (getActiveSessionCount st));
    ("activeConnections"%string, JNum (getActiveConnectionCount st));
    ("totalSessionsCreated"%string, JNum (getTotalSessionsCreated st)) ].

(** [fastify.get('/stats', ...)] of the entry point with start-up retries;
    [uptime] is [process.uptime()] and [timestamp] is
    [new Date().toISOString()]. *)
Definition stats_with_uptime (uptime : JValue) (timestamp : string)
    (st : State) : JObject :=
  [ ("activeSessions"%string, JNum (getActiveSessionCount st));
    ("activeConnections"%string, JNum (getActiveConnectionCount st));
    ("totalSessionsCreated"%string, JNum (getTotalSessionsCreated st));
    ("uptime"%string, uptime);
    ("timestamp"%string, JStr timestamp) ].

(** ** Histories: the calls a store receives over its life *)

Inductive Op : Type :=
| OpCreateSession (sessionId token : string) (now : Z)
| OpGetSession (sessionId : string) (now : Z)
| OpValidateToken (sessionId token : string) (now : Z)
| OpAddClient (sessionId clientId displayName : string) (socket : Socket)
              (now joinedNow : Z)
| OpRemoveClient (sessionId clientId : string)
| OpGetClient (sessionId clientId : string) (now : Z)
| OpGetOtherClient (sessionId clientId : string) (now : Z)
| OpGetClients (sessionId : string) (now : Z)
| OpDeleteSession (sessionId : string)
| OpSweep (now : Z)
| OpCleanup.

Definition discard {A : Type} (c : M A) : M unit := c ;; ret tt.

Definition exec (op : Op) : M unit :=
  match op with
  | OpCreateSession sid tok now => discard (createSession sid tok now)
  | OpGetSession sid now => discard (getSession sid now)
  | OpValidateToken sid tok now => discard (validateToken sid tok now)
  | OpAddClient sid cid dn sock now j => discard (addClient sid cid dn sock now j)
  | OpRemoveClient sid cid => removeClient sid cid
  | OpGetClient sid cid now => discard (getClient sid cid now)
  | OpGetOtherClient sid cid now => discard (getOtherClient sid cid now)
  | OpGetClients sid now => discard (getClients sid now)
  | OpDeleteSession sid => deleteSession sid
  | OpSweep now => cleanupExpiredSessions now
  | OpCleanup => cleanup
  end.

(** The state after a history, oldest call first. *)
Definition run (ops : list Op) (st : State) : State :=
  fold_left (fun st op => snd (exec op st)) ops st.

(** The number of [createSession] calls in a history. *)
Definition creations (ops : list Op) : Z :=
  Z.of_nat (length (filter (fun op => match op with
                                      | OpCreateSession _ _ _ => true
                                      | _ => false
                                      end) ops)).

(** The number of sessions the sweeper has reported as expired. *)
Definition sessionsSwept (st : State) : nat :=
  fold_left Nat.add (consoleLog st) 0%nat.

(** ** Properties as the specification words them *)

(** A session counts as expired at [now] when [Date.now() > expiresAt]. *)
Definition expired (now : Z) (s : Session) : bool := now >? expiresAt s.

(** Registry invariant A1 as worded: every session in the registry is
    strictly before its expiry and has one or two members. *)
Definition A1 (now : Z) (st : State) : Prop :=
  forall sid s, JsMap.get sid (sessions st) = Some s ->
    now < expiresAt s /\ (1 <= JsMap.size (clients s) <= 2)%nat.

(** The membership bound alone, on every entry of the registry. *)
Definition bounded_registry (m : JsMap.t Session) : Prop :=
  Forall (fun e => (JsMap.size (clients (snd e)) <= 2)%nat) m.

Definition members_bounded (st : State) : Prop :=
  bounded_registry (sessions st).

(** Both [Map]s of the store have pairwise distinct keys. *)
Definition wf_registry (m : JsMap.t Session) : Prop :=
  JsMap.wf m /\ Forall (fun e => JsMap.wf (clients (snd e))) m.

Definition store_wf (st : State) : Prop := wf_registry (sessions st).

(** The state once the record [s] found under [sessionId] is deleted by
    [deleteSession]: its members' sockets closed in iteration order, the
    entry gone. *)
Definition deleted (sessionId : string) (s : Session) (st : State) : State :=
  {| sessions := JsMap.delete sessionId (sessions st);
     totalSessionsCreated := totalSessionsCreated st;
     closeLog := closeLog st ++ map socket (JsMap.values (clients s));
     consoleLog := consoleLog st |}.


(** [session] after [session.clients.delete(clientId)]. *)
Definition left_by (clientId : string) (session : Session) : Session :=
  with_clients session (JsMap.delete clientId (clients session)).

(** The state once [removeClient] has taken [clientId] out of the record [s]
    found under [sessionId]. *)
Definition parted (sessionId clientId : string) (s : Session) (st : State)
    : State :=
  {| sessions := JsMap.set sessionId (left_by clientId s) (sessions st);
     totalSessionsCreated := totalSessionsCreated st;
     closeLog := closeLog st; consoleLog := consoleLog st |}.

(** The state once [addClient] has put [client] into the record [s] found
    under [sessionId]. *)
Definition joined (sessionId : string) (s : Session)
    (client : ClientConnection) (st : State) : State :=
  {| sessions :=
       JsMap.set sessionId
         (with_clients s (JsMap.set (clientId client) client (clients s)))
         (sessions st);
     totalSessionsCreated := totalSessionsCreated st;
     closeLog := closeLog st; consoleLog := consoleLog st |}.

(** The sockets of the members of a registry entry, in iteration order. *)
Definition sockets_of (e : string * Session) : list Socket :=
  map socket (JsMap.values (clients (snd e))).

(** The state once the sweeper has run at [now] over a registry with
    pairwise distinct keys. *)
Definition swept (now : Z) (st : State) : State :=
  let gone := filter (fun e => expired now (snd e)) (sessions st) in
  {| sessions := filter (fun e => negb (expired now (snd e))) (sessions st);
     totalSessionsCreated := totalSessionsCreated st;
     closeLog := closeLog st ++ flat_map sockets_of gone;
     consoleLog := consoleLog st ++
                   (if (0 <? length gone)%nat then [length gone] else []) |}.

(** ** The changes the operations make to the registry *)

Inductive reg_step (m : JsMap.t Session) : JsMap.t Session -> Prop :=
| reg_create sid tok now :
    reg_step m (JsMap.set sid (mkSession sid tok now (now + TTL) JsMap.empty) m)
| reg_delete sid :
    reg_step m (JsMap.delete sid m)
| reg_add sid s client :
    JsMap.get sid m = Some s ->
    (JsMap.size (clients s) < 2)%nat ->
    reg_step m
      (JsMap.set sid
         (with_clients s (JsMap.set (clientId client) client (clients s))) m)
| reg_remove sid s cid :
    JsMap.get sid m = Some s ->
    reg_step m (JsMap.set sid (left_by cid s) m).

Inductive reg_steps (m : JsMap.t Session) : JsMap.t Session -> Prop :=
| reg_done : reg_steps m m
| reg_more m1 m2 : reg_steps m m1 -> reg_step m1 m2 -> reg_steps m m2.

(** ** Claims that the code does not meet, as the specification words them *)

(** C3, as worded: adding a client id that is already a member of a live
    session fails and leaves the registry as it was. *)
Definition duplicate_rejected : Prop :=
  forall sid cid dn sock now j s st,
    JsMap.get sid (sessions st) = Some s ->
    now <= expiresAt s ->
    JsMap.has cid (clients s) = true ->
    fst (addClient sid cid dn sock now j st) = false /\
    sessions (snd (addClient sid cid dn sock now j st)) = sessions st.


(** The sweep boundary as worded: a sweep at [now] deletes every session
    with [expiresAt <= now]. *)
Definition sweep_deletes_at_or_before : Prop :=
  forall now st sid s,
    JsMap.wf (sessions st) ->
    JsMap.get sid (sessions st) = Some s ->
    expiresAt s <= now ->
    JsMap.get sid (sessions (snd (cleanupExpiredSessions now st))) = None.

(** The statistics body as worded carries the cumulative number of expired
    sessions: some reading of the body gives, after every history, the
    number of sessions the sweeper has removed as expired. *)
Definition reports_expired_total (body : State -> JObject) : Prop :=
  exists read : JObject -> nat,
    forall ops, read (body (run ops init)) = sessionsSwept (run ops init).

(** ** Scenarios *)

Section Scenarios.
Local Open Scope string_scope.

(** S1: A creates session "S" at time 0 and joins it, B joins a second
    later. *)
Definition history_pair : list Op :=
  [ OpCreateSession "S" "K" 0;
    OpAddClient "S" "A" "Alice" 1%nat 0 0;
    OpAddClient "S" "B" "Bob" 2%nat 1000 1000 ].

Definition st_created : State := run [OpCreateSession "S" "K" 0] init.
Definition st_single : State :=
  run [OpCreateSession "S" "K" 0; OpAddClient "S" "A" "Alice" 1%nat 0 0] init.
Definition st_pair : State := run history_pair init.

(** The records of session "S" in these states. *)
Definition session_single : Session :=
  mkSession "S" "K" 0 3600000 [("A", mkClient "A" "Alice" 1%nat 0)].
Definition session_pair : Session :=
  mkSession "S" "K" 0 3600000
    [("A", mkClient "A" "Alice" 1%nat 0);
     ("B", mkClient "B" "Bob" 2%nat 1000)].

(** A session is created and swept after its lifetime; a session is
    created, joined by its creator and left again well before its expiry. *)
Definition history_expired : list Op :=
  [OpCreateSession "S" "K" 0; OpSweep 3600001].
Definition history_closed : list Op :=
  [OpCreateSession "S" "K" 0;
   OpAddClient "S" "A" "Alice" 1%nat 0 0;
   OpRemoveClient "S" "A"].

End Scenarios.
(** ** The [/health] handlers *)

(** [fastify.get('/health', ...)] of the plain entry point; [uptime] is
    [process.uptime()]. *)
Definition health (uptime : JValue) (st : State) : JObject :=
  [ ("status"%string, JStr "ok");
    ("version"%string, JStr "1.0.0");
    ("uptime"%string, uptime);
    ("connections"%string, JNum (getActiveConnectionCount st));
    ("sessions"%string, JNum (getActiveSessionCount st)) ].

(** [fastify.get('/health', ...)] of the entry point with start-up retries;
    [memory] is [process.memoryUsage()] and [timestamp] is
    [new Date().toISOString()]. *)
Definition health_with_memory (uptime memory : JValue) (timestamp : string)
    (st : State) : JObject :=
  [ ("status"%string, JStr "ok");
    ("version"%string, JStr "1.0.0");
    ("uptime"%string, uptime);
    ("connections"%string, JNum (getActiveConnectionCount st));
    ("sessions"%string, JNum (getActiveSessionCount st));
    ("memory"%string, memory);
    ("timestamp"%string, JStr timestamp) ].

(** [op] is a [createSession] that draws the id [sid]. *)
Definition creates (sid : string) (op : Op) : bool :=
  match op with
  | OpCreateSession sid' _ _ => String.eqb sid' sid
  | _ => false
  end.

(** What [createSession] fixes in a session for good. *)
Definition same_identity (s s' : Session) : Prop :=
  sessionId s' = sessionId s /\ token s' = token s /\
  createdAt s' = createdAt s /\ expiresAt s' = expiresAt s.

(** Every record sits under its own id, lives [TTL] milliseconds, and holds
    each member under the member's own id. *)
Definition keyed_registry (m : JsMap.t Session) : Prop :=
  Forall (fun e =>
            sessionId (snd e) = fst e /\
            expiresAt (snd e) = createdAt (snd e) + TTL /\
            Forall (fun ce => clientId (snd ce) = fst ce) (clients (snd e))) m.

(** ** The WebSocket handler (ws-handler.ts) *)

(** [Map<any, V>], keyed by socket objects; insertion order as for [JsMap]. *)
Module SockMap.

Section WithValue.

Variable V : Type.

Definition t : Type := list (Socket * V).

Fixpoint get (k : Socket) (m : t) : option V :=
  match m with
  | [] => None
  | (k', v) :: m' => if Nat.eqb k k' then Some v else get k m'
  end.

Fixpoint set (k : Socket) (v : V) (m : t) : t :=
  match m with
  | [] => [(k, v)]
  | (k', v') :: m' =>
      if Nat.eqb k k' then (k, v) :: m' else (k', v') :: set k v m'
  end.

Fixpoint delete (k : Socket) (m : t) : t :=
  match m with
  | [] => []
  | (k', v') :: m' =>
      if Nat.eqb k k' then delete k m' else (k', v') :: delete k m'
  end.

End WithValue.

End SockMap.

(** The readings of [Date.now()] during one call of the handler, one per
    call site: [t_now] in [handleMessage], [t_create] in [createSession],
    [t_check1..3] in the first, second and third call of [getSession] the
    handler makes, [t_joined] for [joinedAt] in [addClient], [t_error] in
    [sendError], and one for the timestamp of each kind of message the
    handler builds. The draws of [randomUUID()] and [randomBytes(32)] go
    with them. *)
Record Clock : Type := mkClock {
  t_now : Z;
  t_create : Z;
  t_check1 : Z;
  t_check2 : Z;
  t_check3 : Z;
  t_joined : Z;
  t_error : Z;
  t_session_created : Z;
  t_session_joined : Z;
  t_peer_joined : Z;
  t_peer_left : Z;
  t_peer_disconnected : Z;
  new_id : string;
  new_token : string
}.

Section HandlerModel.

(** [payload: any]: the payload values, with [prop name p] the value of
    [p[name]] for the properties the handler reads ([clientId],
    [displayName], [token], [reason]), which are strings when present. *)
Variable P : Type.
Variable prop : string -> P -> option string.

(** [interface SignalingMessage], as [JSON.parse] delivers it: a field that
    is absent reads [undefined] ([None]); [msg_payload] is [None] for a
    payload that is absent or [null]. *)
Record SignalingMessage : Type := mkMessage {
  msg_type : option string;
  msg_sessionId : option string;
  msg_from : option string;
  msg_to : option string;
  msg_timestamp : option Z;
  msg_payload : option P
}.

(** The data of a frame: text on which [JSON.parse] throws or that parses
    to [null], or a parsed message. *)
Inductive Frame : Type :=
| Unparsable
| Parsed (message : SignalingMessage).

(** The objects the handler passes to [send]: a received message as it is,
    or one of the messages the server builds. *)
Inductive Outgoing : Type :=
| OutRelay (message : SignalingMessage)
| OutSessionCreated (timestamp : Z) (sessionId token : string) (expiresAt : Z)
| OutSessionJoined (sessionId : string) (timestamp : Z)
                   (peerId peerDisplayName : option string)
| OutPeerJoined (sessionId : string) (timestamp : Z)
                (peerId peerDisplayName : string)
| OutPeerLeft (sessionId : string) (timestamp : Z) (peerId reason : string)
| OutPeerDisconnected (sessionId : string) (timestamp : Z) (peerId : string)
| OutError (timestamp : Z) (code message : string).

(** The fields of [class WebSocketHandler]: the session store, the map
    from sockets to their session and client id, and [outbox], the trace of
    the calls [socket.send(JSON.stringify(message))] in call order. Calls
    of the logger leave no state. *)
Record Handler : Type := mkHandler {
  store : State;
  clientSessions : SockMap.t (string * string);
  outbox : list (Socket * Outgoing)
}.

(** [new WebSocketHandler(new SessionStore(), logger)] *)
Definition handler_init : Handler :=
  {| store := init; clientSessions := []; outbox := [] |}.

(** Handler code: a state change that ends normally or by a thrown
    exception ([None]). *)
Definition H (A : Type) : Type := Handler -> option A * Handler.

Definition hret {A : Type} (a : A) : H A := fun h => (Some a, h).

Definition hbind {A B : Type} (c : H A) (k : A -> H B) : H B :=
  fun h => match c h with
           | (Some a, h') => k a h'
           | (None, h') => (None, h')
           end.

Definition throw {A : Type} : H A := fun h => (None, h).

(** [try { body } catch (error) { handler }] *)
Definition try_catch (body handler : H unit) : H unit :=
  fun h => match body h with
           | (Some u, h') => (Some u, h')
           | (None, h') => handler h'
           end.

Declare Scope handler_scope.
Delimit Scope handler_scope with handler.
Notation "x <- c ;; k" := (hbind c (fun x => k))
  (at level 61, c at next level, right associativity) : handler_scope.
Notation "c ;; k" := (hbind c (fun _ => k))
  (at level 61, right associativity) : handler_scope.
Local Open Scope handler_scope.

(** A call of a method of [this.sessionStore]. *)
Definition lift {A : Type} (c : M A) : H A :=
  fun h => let (a, st') := c (store h) in
           (Some a, {| store := st'; clientSessions := clientSessions h;
                       outbox := outbox h |}).

(** [send(socket, message)]: the call of [socket.send] is made; what it
    throws is logged and dropped. *)
Definition send (socket : Socket) (message : Outgoing) : H unit :=
  fun h => (Some tt, {| store := store h; clientSessions := clientSessions h;
                        outbox := outbox h ++ [(socket, message)] |}).

(** [sendError(socket, code, message)] *)
Definition sendError (clk : Clock) (socket : Socket) (code message : string)
    : H unit :=
  send socket (OutError (t_error clk) code message).

(** [this.clientSessions.get(socket)] *)
Definition clientSessions_get (socket : Socket) : H (option (string * string)) :=
  fun h => (Some (SockMap.get socket (clientSessions h)), h).

(** [this.clientSessions.set(socket, { sessionId, clientId })] *)
Definition clientSessions_set (socket : Socket) (sessionId clientId : string)
    : H unit :=
  fun h => (Some tt,
            {| store := store h;
               clientSessions :=
                 SockMap.set socket (sessionId, clientId) (clientSessions h);
               outbox := outbox h |}).

(** [this.clientSessions.delete(socket)] *)
Definition clientSessions_delete (socket : Socket) : H unit :=
  fun h => (Some tt,
            {| store := store h;
               clientSessions := SockMap.delete socket (clientSessions h);
               outbox := outbox h |}).

(** A string-or-undefined value that passes [!x] as false: present and not
    empty. *)
Definition truthy (x : option string) : option string :=
  match x with
  | Some s => if String.eqb s EmptyString then None else Some s
  | None => None
  end.

Local Open Scope string_scope.

(** [handleCreateSession(socket, message)] *)
Definition handleCreateSession (clk : Clock) (sock : Socket)
    (message : SignalingMessage) : H unit :=
  match msg_payload message with
  | None => throw
  | Some payload =>
      match truthy (prop "clientId" payload),
            truthy (prop "displayName" payload) with
      | Some cid, Some dn =>
          session <- lift (createSession (new_id clk) (new_token clk)
                                         (t_create clk)) ;;
          lift (addClient (sessionId session) cid dn sock
                          (t_check1 clk) (t_joined clk)) ;;
          clientSessions_set sock (sessionId session) cid ;;
          send sock
               (OutSessionCreated (t_session_created clk) (sessionId session)
                                  (token session) (expiresAt session))
      | _, _ =>
          sendError clk sock "INVALID_PAYLOAD"
                    "Missing clientId or displayName"
      end
  end.

(** [handleJoinSession(socket, message)] *)
Definition handleJoinSession (clk : Clock) (sock : Socket)
    (message : SignalingMessage) : H unit :=
  match msg_payload message with
  | None => throw
  | Some payload =>
      match truthy (msg_sessionId message), truthy (prop "token" payload),
            truthy (prop "clientId" payload),
            truthy (prop "displayName" payload) with
      | Some sid, Some tok, Some cid, Some dn =>
          valid <- lift (validateToken sid tok (t_check1 clk)) ;;
          if negb valid
          then sendError clk sock "INVALID_TOKEN"
                         "Session token is invalid or expired"
          else
            added <- lift (addClient sid cid dn sock
                                     (t_check2 clk) (t_joined clk)) ;;
            if negb added
            then sendError clk sock "SESSION_FULL"
                           "Session already has maximum clients"
            else
              clientSessions_set sock sid cid ;;
              peer <- lift (getOtherClient sid cid (t_check3 clk)) ;;
              send sock
                   (OutSessionJoined sid (t_session_joined clk)
                      (option_map clientId peer)
                      (option_map displayName peer)) ;;
              match peer with
              | Some p =>
                  send (socket p)
                       (OutPeerJoined sid (t_peer_joined clk) cid dn)
              | None => hret tt
              end
      | _, _, _, _ =>
          sendError clk sock "INVALID_PAYLOAD" "Missing required fields"
      end
  end.

(** [handleRelay(socket, message)] *)
Definition handleRelay (clk : Clock) (sock : Socket)
    (message : SignalingMessage) : H unit :=
  match truthy (msg_sessionId message), truthy (msg_from message),
        truthy (msg_to message) with
  | Some sid, Some from, Some to =>
      session <- lift (getSession sid (t_check1 clk)) ;;
      match session with
      | Some s =>
          if JsMap.has from (clients s)
          then
            recipient <- lift (getClient sid to (t_check2 clk)) ;;
            match recipient with
            | Some r => send (socket r) (OutRelay message)
            | None =>
                sendError clk sock "PEER_NOT_FOUND"
                          "Recipient not found in session"
            end
          else sendError clk sock "UNAUTHORIZED" "Sender not in session"
      | None => sendError clk sock "UNAUTHORIZED" "Sender not in session"
      end
  | _, _, _ =>
      sendError clk sock "INVALID_PAYLOAD" "Missing sessionId, from, or to"
  end.

(** [handleSessionClose(socket, message)]. The [peer_left] object is built
    only when there is a peer; building it reads the clock and then
    [message.payload.reason], which throws on an absent payload. *)
Definition handleSessionClose (clk : Clock) (sock : Socket)
    (message : SignalingMessage) : H unit :=
  mapping <- clientSessions_get sock ;;
  match mapping with
  | None => hret tt
  | Some (sid, cid) =>
      peer <- lift (getOtherClient sid cid (t_check1 clk)) ;;
      match peer with
      | Some p =>
          match msg_payload message with
          | None => throw
          | Some payload =>
              send (socket p)
                   (OutPeerLeft sid (t_peer_left clk) cid
                      (match truthy (prop "reason" payload) with
                       | Some reason => reason
                       | None => "unknown"
                       end))
          end
      | None => hret tt
      end ;;
      lift (removeClient sid cid) ;;
      clientSessions_delete sock
  end.

(** [handleDisconnect(socket)] *)
Definition handleDisconnect (clk : Clock) (sock : Socket) : H unit :=
  mapping <- clientSessions_get sock ;;
  match mapping with
  | None => hret tt
  | Some (sid, cid) =>
      peer <- lift (getOtherClient sid cid (t_check1 clk)) ;;
      match peer with
      | Some p =>
          send (socket p)
               (OutPeerDisconnected sid (t_peer_disconnected clk) cid)
      | None => hret tt
      end ;;
      lift (removeClient sid cid) ;;
      clientSessions_delete sock
  end.

(** [Math.abs(now - message.timestamp) > 300000]; with the timestamp
    absent the difference is [NaN] and the comparison is false. *)
Definition stale (clk : Clock) (message : SignalingMessage) : bool :=
  match msg_timestamp message with
  | Some timestamp => (300000 <? Z.abs (t_now clk - timestamp))%Z
  | None => false
  end.

(** The [switch (message.type)] of [handleMessage]. *)
Definition dispatch (clk : Clock) (sock : Socket)
    (message : SignalingMessage) : H unit :=
  match msg_type message with
  | Some type =>
      if String.eqb type "create_session"
      then handleCreateSession clk sock message
      else if String.eqb type "join_session"
      then handleJoinSession clk sock message
      else if String.eqb type "offer" || String.eqb type "answer"
              || String.eqb type "ice_candidate"
      then handleRelay clk sock message
      else if String.eqb type "session_close"
      then handleSessionClose clk sock message
      else sendError clk sock "UNKNOWN_MESSAGE_TYPE"
                     ("Unknown message type: " ++ type)
  | None =>
      sendError clk sock "UNKNOWN_MESSAGE_TYPE"
                "Unknown message type: undefined"
  end.

(** [handleMessage(socket, data)] *)
Definition handleMessage (clk : Clock) (sock : Socket) (data : Frame)
    : H unit :=
  try_catch
    (match data with
     | Unparsable => throw
     | Parsed message =>
         if stale clk message
         then sendError clk sock "INVALID_TIMESTAMP"
                        "Message timestamp too old"
         else dispatch clk sock message
     end)
    (sendError clk sock "INVALID_MESSAGE" "Failed to parse message").

(** The events [handleConnection] subscribes a socket to: a message frame
    and the close of the socket. *)
Inductive Event : Type :=
| OnMessage (sock : Socket) (data : Frame)
| OnClose (sock : Socket).

(** The state after an event; an exception that leaves [handleDisconnect]
    is not caught there, but none is thrown. *)
Definition handle (clk : Clock) (ev : Event) (h : Handler) : Handler :=
  match ev with
  | OnMessage sock data => snd (handleMessage clk sock data h)
  | OnClose sock => snd (handleDisconnect clk sock h)
  end.

(** The state after a history of events, each with the clock readings and
    random draws of its handling. *)
Definition run_events (evs : list (Clock * Event)) (h : Handler) : Handler :=
  fold_left (fun h ce => handle (fst ce) (snd ce) h) evs h.

(** The messages meant for the sender of a frame alone: errors, and the
    answers to [create_session] (which carries the token) and to
    [join_session]. *)
Definition is_reply_only (message : Outgoing) : bool :=
  match message with
  | OutError _ _ _ => true
  | OutSessionCreated _ _ _ _ => true
  | OutSessionJoined _ _ _ _ => true
  | _ => false
  end.

(** [c] changes the registry by registry steps only. *)
Definition steps_only (A : Type) (c : H A) : Prop :=
  forall h, reg_steps (sessions (store h)) (sessions (store (snd (c h)))).

(** [c] appends to the trace only messages that satisfy [Q]. *)
Definition emits (Q : Socket * Outgoing -> Prop) (A : Type) (c : H A)
    : Prop :=
  forall h, exists new,
    outbox (snd (c h)) = (outbox h ++ new)%list /\ Forall Q new.

(** [h] with the store replaced, and [h] after one more [send]. *)
Definition with_store (h : Handler) (st : State) : Handler :=
  {| store := st; clientSessions := clientSessions h; outbox := outbox h |}.

Definition sent (sock : Socket) (message : Outgoing) (h : Handler) : Handler :=
  {| store := store h; clientSessions := clientSessions h;
     outbox := (outbox h ++ [(sock, message)])%list |}.

(** [h] with the socket bound to a session and client id, or unbound. *)
Definition bound (sock : Socket) (sid cid : string) (h : Handler) : Handler :=
  {| store := store h;
     clientSessions := SockMap.set sock (sid, cid) (clientSessions h);
     outbox := outbox h |}.

Definition unbound (sock : Socket) (h : Handler) : Handler :=
  {| store := store h;
     clientSessions := SockMap.delete sock (clientSessions h);
     outbox := outbox h |}.

(** A message added while a frame from [sock] is handled is routed well:
    an error, a [session_created] or a [session_joined] goes to [sock], and
    no [peer_disconnected] is sent. *)
Definition routed_from (sock : Socket) (sm : Socket * Outgoing) : Prop :=
  match snd sm with
  | OutError _ _ _ | OutSessionCreated _ _ _ _ | OutSessionJoined _ _ _ _ =>
      fst sm = sock
  | OutPeerDisconnected _ _ _ => False
  | _ => True
  end.

(** The only message a closing socket causes is [peer_disconnected]. *)
Definition disconnect_notice (sm : Socket * Outgoing) : Prop :=
  match snd sm with
  | OutPeerDisconnected _ _ _ => True
  | _ => False
  end.

(** [message] passes the timestamp check and is a [join_session] that
    carries, all present and not empty, the session id [sid], the token
    [tok], the client id [cid] and the display name [dn]. *)
Definition join_request (clk : Clock) (message : SignalingMessage)
    (sid tok cid dn : string) : Prop :=
  stale clk message = false /\
  msg_type message = Some "join_session" /\
  truthy (msg_sessionId message) = Some sid /\
  exists payload,
    msg_payload message = Some payload /\
    truthy (prop "token" payload) = Some tok /\
    truthy (prop "clientId" payload) = Some cid /\
    truthy (prop "displayName" payload) = Some dn.

(** [message] passes the timestamp check and is an [offer], [answer] or
    [ice_candidate] with session id [sid], sender [from] and recipient
    [to], all present and not empty. *)
Definition relay_request (clk : Clock) (message : SignalingMessage)
    (sid from to : string) : Prop :=
  stale clk message = false /\
  (msg_type message = Some "offer" \/ msg_type message = Some "answer" \/
   msg_type message = Some "ice_candidate") /\
  truthy (msg_sessionId message) = Some sid /\
  truthy (msg_from message) = Some from /\
  truthy (msg_to message) = Some to.

(** [message.payload.reason || 'unknown'] *)
Definition reason_of (payload : P) : string :=
  match truthy (prop "reason" payload) with
  | Some reason => reason
  | None => "unknown"
  end.

End HandlerModel.

Arguments OutSessionCreated {P}.
Arguments OutSessionJoined {P}.
Arguments OutPeerJoined {P}.
Arguments OutPeerLeft {P}.
Arguments OutPeerDisconnected {P}.
Arguments OutError {P}.

(** The message types [handleMessage] knows. *)
Definition known_types : list string :=
  [ "create_session"%string; "join_session"%string; "offer"%string;
    "answer"%string; "ice_candidate"%string; "session_close"%string ].

(** A payload type for concrete runs: a JSON object with string fields. *)
Definition FlatPayload : Type := JsMap.t string.

Definition flat_prop (name : string) (p : FlatPayload) : option string :=
  JsMap.get name p.

(** ** Scenarios for the handler *)

Section HandlerScenarios.
Local Open Scope string_scope.
Local Open Scope Z_scope.

(** A call during which every clock reading is [t] and the random draws
    are [id] and [tok]. *)
Definition clock_at (t : Z) (id tok : string) : Clock :=
  mkClock t t t t t t t t t t t t id tok.

Definition msg_create : SignalingMessage FlatPayload :=
  mkMessage (Some "create_session") None None None (Some 0)
            (Some [("clientId", "A"); ("displayName", "Alice")]).

Definition msg_join (tok cid dn : string) : SignalingMessage FlatPayload :=
  mkMessage (Some "join_session") (Some "S") None None (Some 1000)
            (Some [("token", tok); ("clientId", cid); ("displayName", dn)]).

Definition msg_offer (from to : string) : SignalingMessage FlatPayload :=
  mkMessage (Some "offer") (Some "S") (Some from) (Some to) (Some 2000)
            (Some [("type", "offer"); ("sdp", "v=0")]).

Definition msg_close (payload : option FlatPayload)
    : SignalingMessage FlatPayload :=
  mkMessage (Some "session_close") (Some "S") None None (Some 3000) payload.

(** Socket 1 creates session "S" at time 0 as "A"; socket 2 joins it at
    time 1000 as "B". *)
Definition h_created : Handler FlatPayload :=
  handle flat_prop (clock_at 0 "S" "K") (OnMessage 1%nat (Parsed msg_create))
         (handler_init FlatPayload).

Definition h_paired : Handler FlatPayload :=
  handle flat_prop (clock_at 1000 "T" "L")
         (OnMessage 2%nat (Parsed (msg_join "K" "B" "Bob"))) h_created.

End HandlerScenarios.


(** ** Facts about [JsMap] *)

Module JsMapFacts.
Import JsMap.

Section WithValue.
Variable V : Type.
Implicit Types (m : JsMap.t V) (k : string) (v : V).

Lemma get_set_same k v m : get k (set k v m) = Some v.
Proof.
  induction m as [|[k' v'] m IH]; simpl.
  - now rewrite String.eqb_refl.
  - destruct (String.eqb k k') eqn:E; simpl; rewrite ?E, ?String.eqb_refl; auto.
Qed.

Lemma get_set_other k k' v m : k' <> k -> get k' (set k v m) = get k' m.
Proof.
  intros Hne. induction m as [|[k0 v0] m IH]; simpl.
  - apply String.eqb_neq in Hne. now rewrite Hne.
  - destruct (String.eqb k k0) eqn:E; simpl.
    + apply String.eqb_eq in E. subst k0.
      apply String.eqb_neq in Hne. now rewrite Hne.
    + now rewrite IH.
Qed.

Lemma get_delete_same k m : get k (delete k m) = None.
Proof.
  induction m as [|[k' v'] m IH]; simpl; auto.
  destruct (String.eqb k k') eqn:E; simpl; rewrite ?E; auto.
Qed.

Lemma get_delete_other k k' m : k' <> k -> get k' (delete k m) = get k' m.
Proof.
  intros Hne. induction m as [|[k0 v0] m IH]; simpl; auto.
  destruct (String.eqb k k0) eqn:E; simpl.
  - apply String.eqb_eq in E. subst k0.
    apply String.eqb_neq in Hne. now rewrite Hne.
  - now rewrite IH.
Qed.

Lemma get_In k v m : get k m = Some v -> In (k, v) m.
Proof.
  induction m as [|[k' v'] m IH]; simpl; [discriminate|].
  destruct (String.eqb k k') eqn:E.
  - apply String.eqb_eq in E. intros [= ->]. subst. now left.
  - intros H. right. auto.
Qed.

Lemma In_get k v m : wf m -> In (k, v) m -> get k m = Some v.
Proof.
  unfold wf, keys. induction m as [|[k' v'] m IH]; simpl; [tauto|].
  intros Hnd Hin. inversion Hnd as [|? ? Hnotin Hnd']; subst.
  destruct Hin as [[= -> ->]|Hin].
  - now rewrite String.eqb_refl.
  - destruct (String.eqb k k') eqn:E; auto.
    apply String.eqb_eq in E. subst k'.
    exfalso. apply Hnotin. apply (in_map fst) in Hin. exact Hin.
Qed.

Lemma get_None_not_In k m : get k m = None -> ~ In k (keys m).
Proof.
  unfold keys. induction m as [|[k' v'] m IH]; simpl; [tauto|].
  destruct (String.eqb k k') eqn:E; [discriminate|].
  apply String.eqb_neq in E. intros H [Heq|Hin]; [congruence|]. now apply IH.
Qed.

Lemma In_keys_delete k k' m : In k' (keys (delete k m)) -> In k' (keys m).
Proof.
  unfold keys. induction m as [|[k0 v0] m IH]; simpl; auto.
  destruct (String.eqb k k0); simpl; intuition.
Qed.

Lemma In_delete e k m : In e (delete k m) -> In e m.
Proof.
  induction m as [|[k0 v0] m IH]; simpl; auto.
  destruct (String.eqb k k0); simpl; intuition.
Qed.

Lemma In_set e k v m : In e (set k v m) -> e = (k, v) \/ In e m.
Proof.
  induction m as [|[k0 v0] m IH]; simpl.
  - intuition.
  - destruct (String.eqb k k0); simpl; intuition.
Qed.

Lemma keys_set k v m :
  keys (set k v m) = if has k m then keys m else keys m ++ [k].
Proof.
  unfold has, keys. induction m as [|[k0 v0] m IH]; simpl; auto.
  destruct (String.eqb k k0) eqn:E; simpl.
  - apply String.eqb_eq in E. now subst.
  - rewrite IH. now destruct (get k m).
Qed.

Lemma wf_delete k m : wf m -> wf (delete k m).
Proof.
  unfold wf. induction m as [|[k0 v0] m IH]; simpl; auto.
  intros Hnd. inversion Hnd as [|? ? Hnotin Hnd']; subst.
  destruct (String.eqb k k0); simpl; auto.
  constructor; auto. intros Hin. apply Hnotin. eapply In_keys_delete; eauto.
Qed.

Lemma wf_set k v m : wf m -> wf (set k v m).
Proof.
  unfold wf. intros Hnd. rewrite keys_set. unfold has.
  destruct (get k m) eqn:G; auto.
  apply get_None_not_In in G.
  apply NoDup_app; auto.
  - repeat constructor. simpl. tauto.
  - intros x Hx [<-|[]]. contradiction.
Qed.

Lemma size_set k v m :
  size (set k v m) = if has k m then size m else S (size m).
Proof.
  unfold size, has. induction m as [|[k0 v0] m IH]; simpl; auto.
  destruct (String.eqb k k0); simpl; auto.
  rewrite IH. now destruct (get k m).
Qed.

Lemma size_delete_le k m : (size (delete k m) <= size m)%nat.
Proof.
  unfold size. induction m as [|[k0 v0] m IH]; simpl; auto.
  destruct (String.eqb k k0); simpl; lia.
Qed.

Lemma Forall_set (P : string * V -> Prop) k v m :
  P (k, v) -> Forall P m -> Forall P (set k v m).
Proof.
  intros Hp Hm. apply Forall_forall. intros e He.
  apply In_set in He. destruct He as [->|He]; auto.
  rewrite Forall_forall in Hm. auto.
Qed.

Lemma Forall_delete (P : string * V -> Prop) k m :
  Forall P m -> Forall P (delete k m).
Proof.
  rewrite !Forall_forall. intros Hm e He. apply Hm. eapply In_delete; eauto.
Qed.

Lemma size_0_nil m : size m = 0%nat -> m = [].
Proof. destruct m; [reflexivity | discriminate]. Qed.

Lemma delete_absent k m : get k m = None -> delete k m = m.
Proof.
  induction m as [|[k' v'] m IH]; simpl; auto.
  destruct (String.eqb k k'); [discriminate|]. intros H. now rewrite IH.
Qed.

Lemma keys_app m1 m2 : keys (m1 ++ m2) = keys m1 ++ keys m2.
Proof. unfold keys. apply map_app. Qed.

Lemma get_app_absent k m1 m2 :
  ~ In k (keys m1) -> get k (m1 ++ m2) = get k m2.
Proof.
  unfold keys. induction m1 as [|[k' v'] m1 IH]; simpl; auto.
  intros Hn. destruct (String.eqb_spec k k') as [->|_]; [tauto|]. apply IH. tauto.
Qed.

Lemma delete_app k m1 m2 : delete k (m1 ++ m2) = delete k m1 ++ delete k m2.
Proof.
  induction m1 as [|[k' v'] m1 IH]; simpl; auto.
  destruct (String.eqb k k'); simpl; now rewrite IH.
Qed.

Lemma delete_not_key k m : ~ In k (keys m) -> delete k m = m.
Proof.
  unfold keys. induction m as [|[k' v'] m IH]; simpl; auto.
  intros Hn. destruct (String.eqb_spec k k') as [->|_]; [tauto|].
  rewrite IH; tauto.
Qed.

Lemma wf_mid_absent k v m1 m2 :
  wf (m1 ++ (k, v) :: m2) ->
  ~ In k (keys m1) /\ ~ In k (keys m2) /\ wf (m1 ++ m2).
Proof.
  unfold wf. rewrite !keys_app. cbn. intros Hnd.
  pose proof (NoDup_remove_1 _ _ _ Hnd) as H1.
  pose proof (NoDup_remove_2 _ _ _ Hnd) as H2.
  rewrite in_app_iff in H2. tauto.
Qed.

Lemma get_mid k v m1 m2 :
  wf (m1 ++ (k, v) :: m2) -> get k (m1 ++ (k, v) :: m2) = Some v.
Proof.
  intros Hwf. apply wf_mid_absent in Hwf. destruct Hwf as (H1 & _ & _).
  rewrite get_app_absent by assumption. simpl. now rewrite String.eqb_refl.
Qed.

Lemma delete_mid k v m1 m2 :
  wf (m1 ++ (k, v) :: m2) -> delete k (m1 ++ (k, v) :: m2) = m1 ++ m2.
Proof.
  intros Hwf. apply wf_mid_absent in Hwf. destruct Hwf as (H1 & H2 & _).
  rewrite delete_app. simpl. rewrite String.eqb_refl.
  now rewrite !delete_not_key.
Qed.

Lemma get_filter (f : string * V -> bool) k m :
  wf m ->
  get k (filter f m) =
  match get k m with
  | Some v => if f (k, v) then Some v else None
  | None => None
  end.
Proof.
  unfold wf, keys. induction m as [|[k' v'] m IH]; simpl; auto.
  intros Hnd. inversion Hnd as [|? ? Hnotin Hnd']; subst.
  destruct (String.eqb_spec k k') as [->|Hne].
  - destruct (f (k', v')) eqn:F; simpl.
    + now rewrite String.eqb_refl.
    + destruct (get k' (filter f m)) eqn:G; auto.
      apply get_In in G. apply filter_In in G. destruct G as [G _].
      apply (in_map fst) in G. contradiction.
  - destruct (f (k', v')); simpl; auto.
    apply String.eqb_neq in Hne. now rewrite Hne, IH.
Qed.

End WithValue.

End JsMapFacts.

(** ** What each operation does to the state *)

Section Equations.
Import JsMap JsMapFacts.
Local Open Scope Z_scope.

Lemma state_eta st :
  {| sessions := sessions st; totalSessionsCreated := totalSessionsCreated st;
     closeLog := closeLog st; consoleLog := consoleLog st |} = st.
Proof. now destruct st. Qed.

Lemma for_each_close (l : list ClientConnection) st :
  for_each l (fun client => socket_close (socket client)) st =
  (tt, {| sessions := sessions st;
          totalSessionsCreated := totalSessionsCreated st;
          closeLog := closeLog st ++ map socket l;
          consoleLog := consoleLog st |}).
Proof.
  revert st. induction l as [|c l IH]; intros st; simpl.
  - unfold ret. now rewrite app_nil_r, state_eta.
  - unfold bind, socket_close. rewrite IH. simpl. now rewrite <- app_assoc.
Qed.

Lemma deleteSession_eq sid st :
  deleteSession sid st =
  (tt, match JsMap.get sid (sessions st) with
       | Some s => deleted sid s st
       | None => st
       end).
Proof.
  unfold deleteSession, bind, sessions_get.
  destruct (JsMap.get sid (sessions st)) as [s|]; [|reflexivity].
  now rewrite for_each_close.
Qed.

Lemma getSession_eq sid now st :
  getSession sid now st =
  match JsMap.get sid (sessions st) with
  | Some s => if now >? expiresAt s then (None, deleted sid s st)
              else (Some s, st)
  | None => (None, st)
  end.
Proof.
  unfold getSession, bind at 1, sessions_get.
  destruct (JsMap.get sid (sessions st)) as [s|] eqn:G; [|reflexivity].
  destruct (now >? expiresAt s); [|reflexivity].
  unfold bind. now rewrite deleteSession_eq, G.
Qed.

Lemma getSession_expired sid now s st :
  JsMap.get sid (sessions st) = Some s -> expiresAt s < now ->
  getSession sid now st = (None, deleted sid s st).
Proof.
  intros G Hlt. rewrite getSession_eq, G.
  destruct (Z.gtb_spec now (expiresAt s)); [reflexivity | lia].
Qed.

Lemma getSession_live sid now s st :
  JsMap.get sid (sessions st) = Some s -> now <= expiresAt s ->
  getSession sid now st = (Some s, st).
Proof.
  intros G Hle. rewrite getSession_eq, G.
  destruct (Z.gtb_spec now (expiresAt s)); [lia | reflexivity].
Qed.

Lemma getSession_missing sid now st :
  JsMap.get sid (sessions st) = None -> getSession sid now st = (None, st).
Proof. intros G. now rewrite getSession_eq, G. Qed.

End Equations.

(** ** Token validation, session lifetime and lazy expiry *)

Section Lookup.
Import JsMap JsMapFacts.
Local Open Scope Z_scope.

Lemma validateToken_eq sid tok now st :
  validateToken sid tok now st =
  match JsMap.get sid (sessions st) with
  | Some s => if now >? expiresAt s then (false, deleted sid s st)
              else (String.eqb (token s) tok, st)
  | None => (false, st)
  end.
Proof.
  unfold validateToken, bind. rewrite getSession_eq.
  destruct (JsMap.get sid (sessions st)) as [s|]; [|reflexivity].
  now destruct (now >? expiresAt s).
Qed.

(** C4. [validateToken] answers [true] exactly when the session is
    registered, is not expired ([now] is not past [expiresAt]) and its token
    equals the presented one; it answers [false] exactly when the session is
    unknown, or expired, or the tokens differ. *)
Theorem validateToken_spec (sid tok : string) (now : Z) (st : State) :
  (fst (validateToken sid tok now st) = true <->
     exists s, JsMap.get sid (sessions st) = Some s /\
               now <= expiresAt s /\ token s = tok) /\
  (fst (validateToken sid tok now st) = false <->
     JsMap.get sid (sessions st) = None \/
     exists s, JsMap.get sid (sessions st) = Some s /\
               (expiresAt s < now \/ token s <> tok)).
Proof.
  rewrite validateToken_eq.
  destruct (JsMap.get sid (sessions st)) as [s|] eqn:G.
  - destruct (Z.gtb_spec now (expiresAt s)) as [Hgt|Hle]; simpl.
    + split; split.
      * discriminate.
      * intros (s' & [= <-] & Hle & _). lia.
      * intros _. right. exists s. auto.
      * reflexivity.
    + destruct (String.eqb_spec (token s) tok) as [Heq|Hne]; split; split.
      * intros _. exists s. auto.
      * reflexivity.
      * discriminate.
      * intros [[=]|(s' & [= <-] & [Hlt|Hne])]; [lia | contradiction].
      * discriminate.
      * intros (s' & [= <-] & _ & Heq). contradiction.
      * intros _. right. exists s. auto.
      * reflexivity.
  - simpl. split; split.
    + discriminate.
    + intros (s' & [=] & _).
    + intros _. now left.
    + reflexivity.
Qed.

(** C8. The session [createSession] returns, and registers under its id,
    was created at the clock reading [now] and expires exactly 3,600,000
    milliseconds later. *)
Theorem createSession_ttl (sid tok : string) (now : Z) (st : State) :
  let s := fst (createSession sid tok now st) in
  let st' := snd (createSession sid tok now st) in
  TTL = 3600000 /\
  createdAt s = now /\
  expiresAt s = createdAt s + TTL /\
  expiresAt s = now + 3600000 /\
  JsMap.get sid (sessions st') = Some s.
Proof.
  simpl. repeat split. apply get_set_same.
Qed.

(** C9. A registered session whose [expiresAt] lies strictly in the past is
    reaped by any read that goes through [getSession]: the read answers
    none / false / the empty list, the record leaves the registry, and
    [close()] is called on the socket of each of its members; the sweeper
    is not involved (nothing is printed). *)
Theorem lazy_expiry_on_read (sid : string) (s : Session) (now : Z) (st : State) :
  JsMap.get sid (sessions st) = Some s ->
  expiresAt s < now ->
  getSession sid now st = (None, deleted sid s st) /\
  (forall tok, validateToken sid tok now st = (false, deleted sid s st)) /\
  (forall cid dn sock j,
     addClient sid cid dn sock now j st = (false, deleted sid s st)) /\
  (forall cid, getClient sid cid now st = (None, deleted sid s st)) /\
  (forall cid, getOtherClient sid cid now st = (None, deleted sid s st)) /\
  getClients sid now st = ([], deleted sid s st) /\
  JsMap.get sid (sessions (deleted sid s st)) = None /\
  closeLog (deleted sid s st) =
    closeLog st ++ map socket (JsMap.values (clients s)) /\
  consoleLog (deleted sid s st) = consoleLog st.
Proof.
  intros G Hlt.
  pose proof (getSession_expired sid st G Hlt) as E.
  repeat split; intros;
    unfold validateToken, addClient, getClient, getOtherClient, getClients,
      bind; rewrite ?E; try reflexivity.
  apply get_delete_same.
Qed.

End Lookup.

(** ** Membership: [addClient] and [removeClient] *)

Section Membership.
Import JsMap JsMapFacts.
Local Open Scope Z_scope.

Lemma addClient_eq sid cid dn sock now j st :
  addClient sid cid dn sock now j st =
  match JsMap.get sid (sessions st) with
  | None => (false, st)
  | Some s =>
      if now >? expiresAt s then (false, deleted sid s st)
      else if (2 <=? JsMap.size (clients s))%nat then (false, st)
      else (true, joined sid s (mkClient cid dn sock j) st)
  end.
Proof.
  unfold addClient, bind. rewrite getSession_eq.
  destruct (JsMap.get sid (sessions st)) as [s|]; [|reflexivity].
  destruct (now >? expiresAt s); [reflexivity|].
  now destruct (2 <=? JsMap.size (clients s))%nat.
Qed.

Lemma removeClient_eq sid cid st :
  removeClient sid cid st =
  (tt, match JsMap.get sid (sessions st) with
       | None => st
       | Some s =>
           if (JsMap.size (JsMap.delete cid (clients s)) =? 0)%nat
           then deleted sid (left_by cid s) (parted sid cid s st)
           else parted sid cid s st
       end).
Proof.
  unfold removeClient, bind, sessions_get.
  destruct (JsMap.get sid (sessions st)) as [s|] eqn:G; [|reflexivity].
  cbn [sessions_set]. fold (parted sid cid s st).
  destruct (JsMap.size (JsMap.delete cid (clients s)) =? 0)%nat; [|reflexivity].
  rewrite deleteSession_eq. cbn [parted sessions].
  now rewrite get_set_same.
Qed.

Lemma get_delete_set_same (sid : string) (s : Session) (m : JsMap.t Session) k :
  JsMap.get k (JsMap.delete sid (JsMap.set sid s m)) =
  JsMap.get k (JsMap.delete sid m).
Proof.
  destruct (String.eqb_spec k sid) as [->|Hne].
  - now rewrite !get_delete_same.
  - now rewrite !get_delete_other, get_set_other.
Qed.

(** C5. [removeClient] on a registered session removes the member and
    leaves the other members as they were. When that empties the membership
    the record is deleted from the registry, [close()] having been called on
    every member still recorded at that moment (there is none); otherwise
    the record stays, with the reduced membership. No other session is
    touched. The helper that ends a session, [deleteSession], calls
    [close()] on the socket of every member of the record and removes the
    record. *)
Theorem removeClient_spec (sid cid : string) (s : Session) (st : State) :
  JsMap.get sid (sessions st) = Some s ->
  let members' := JsMap.delete cid (clients s) in
  let st' := snd (removeClient sid cid st) in
  JsMap.get cid members' = None /\
  (forall k, k <> cid -> JsMap.get k members' = JsMap.get k (clients s)) /\
  (JsMap.size members' = 0%nat ->
     JsMap.get sid (sessions st') = None /\
     closeLog st' = closeLog st ++ map socket (JsMap.values members') /\
     closeLog st' = closeLog st) /\
  (JsMap.size members' <> 0%nat ->
     JsMap.get sid (sessions st') = Some (left_by cid s) /\
     clients (left_by cid s) = members' /\
     closeLog st' = closeLog st) /\
  (forall k, k <> sid ->
     JsMap.get k (sessions st') = JsMap.get k (sessions st)) /\
  totalSessionsCreated st' = totalSessionsCreated st /\
  (forall sid2 s2 st2, JsMap.get sid2 (sessions st2) = Some s2 ->
     JsMap.get sid2 (sessions (snd (deleteSession sid2 st2))) = None /\
     closeLog (snd (deleteSession sid2 st2)) =
       closeLog st2 ++ map socket (JsMap.values (clients s2))).
Proof.
  intros G members' st'.
  assert (Hdel : forall sid2 s2 st2, JsMap.get sid2 (sessions st2) = Some s2 ->
     JsMap.get sid2 (sessions (snd (deleteSession sid2 st2))) = None /\
     closeLog (snd (deleteSession sid2 st2)) =
       closeLog st2 ++ map socket (JsMap.values (clients s2))).
  { intros sid2 s2 st2 G2. rewrite deleteSession_eq, G2. cbn.
    split; [apply get_delete_same | reflexivity]. }
  subst st'. rewrite removeClient_eq, G. cbn [snd].
  fold members'.
  split; [apply get_delete_same|].
  split; [intros k Hk; now apply get_delete_other|].
  destruct (Nat.eqb_spec (JsMap.size members') 0) as [Hz|Hnz].
  - split; [intros _|split; [intros Hnz; contradiction|split]].
    + split; [cbn; apply get_delete_same|].
      assert (E : closeLog (deleted sid (left_by cid s) (parted sid cid s st))
                  = closeLog st ++ map socket (JsMap.values members'))
        by reflexivity.
      split; [exact E|]. rewrite E, (size_0_nil _ Hz). apply app_nil_r.
    + intros k Hk. cbn. rewrite get_delete_set_same. now apply get_delete_other.
    + split; [reflexivity | exact Hdel].
  - split; [intros Hz; contradiction|split; [intros _|split]].
    + split; [cbn; apply get_set_same|]. split; reflexivity.
    + intros k Hk. cbn. now apply get_set_other.
    + split; [reflexivity | exact Hdel].
Qed.

End Membership.

(** ** Registry invariants *)

Section RegistrySteps.
Import JsMap JsMapFacts.
Local Open Scope Z_scope.

Lemma reg_steps_trans m1 m2 m3 :
  reg_steps m1 m2 -> reg_steps m2 m3 -> reg_steps m1 m3.
Proof.
  intros H12 H23. induction H23; [assumption|].
  eapply reg_more; eauto.
Qed.

Lemma reg_steps_one m1 m2 : reg_step m1 m2 -> reg_steps m1 m2.
Proof. intros H. eapply reg_more; [apply reg_done | exact H]. Qed.

Lemma deleteSession_sessions sid st :
  sessions (snd (deleteSession sid st)) = JsMap.delete sid (sessions st).
Proof.
  rewrite deleteSession_eq. cbn [snd].
  destruct (JsMap.get sid (sessions st)) eqn:G; [reflexivity|].
  symmetry. now apply delete_absent.
Qed.

Lemma deleteSession_total sid st :
  totalSessionsCreated (snd (deleteSession sid st)) = totalSessionsCreated st.
Proof.
  rewrite deleteSession_eq. cbn [snd].
  now destruct (JsMap.get sid (sessions st)).
Qed.

Lemma getSession_steps sid now st :
  reg_steps (sessions st) (sessions (snd (getSession sid now st))) /\
  totalSessionsCreated (snd (getSession sid now st)) = totalSessionsCreated st.
Proof.
  rewrite getSession_eq.
  destruct (JsMap.get sid (sessions st)) as [s|]; [|split; [constructor|reflexivity]].
  destruct (now >? expiresAt s); split; try reflexivity; try constructor.
  apply reg_steps_one. cbn. constructor.
Qed.

Lemma sweep_loop_steps now l : forall n st,
  reg_steps (sessions st) (sessions (snd (sweep_loop now l n st))) /\
  totalSessionsCreated (snd (sweep_loop now l n st)) = totalSessionsCreated st.
Proof.
  induction l as [|[sid s] l IH]; intros n st; cbn [sweep_loop].
  - split; [constructor|reflexivity].
  - destruct (now >? expiresAt s); [|apply IH].
    unfold bind. destruct (deleteSession sid st) as [u st1] eqn:E.
    assert (E1 : st1 = snd (deleteSession sid st)) by now rewrite E.
    destruct (IH (S n) st1) as [IHs IHt]. split.
    + eapply reg_steps_trans; [|exact IHs].
      apply reg_steps_one. rewrite E1, deleteSession_sessions. constructor.
    + rewrite IHt, E1. apply deleteSession_total.
Qed.

Lemma for_each_delete_steps l : forall st,
  reg_steps (sessions st) (sessions (snd (for_each l deleteSession st))) /\
  totalSessionsCreated (snd (for_each l deleteSession st)) =
    totalSessionsCreated st.
Proof.
  induction l as [|sid l IH]; intros st; cbn [for_each].
  - split; [constructor|reflexivity].
  - unfold bind. destruct (deleteSession sid st) as [u st1] eqn:E.
    assert (E1 : st1 = snd (deleteSession sid st)) by now rewrite E.
    destruct (IH st1) as [IHs IHt]. split.
    + eapply reg_steps_trans; [|exact IHs].
      apply reg_steps_one. rewrite E1, deleteSession_sessions. constructor.
    + rewrite IHt, E1. apply deleteSession_total.
Qed.

(** A read that only looks the session up changes the store as [getSession]
    does. *)
Ltac read_through_getSession sid now st :=
  let Hs := fresh "Hs" in
  let Ht := fresh "Ht" in
  destruct (getSession_steps sid now st) as [Hs Ht];
  unfold bind; destruct (getSession sid now st);
  cbn in *; split; [exact Hs | lia].

(** Every operation changes the registry by creations, deletions, bounded
    additions and removals only, and only [createSession] counts. *)
Lemma exec_steps op st :
  reg_steps (sessions st) (sessions (snd (exec op st))) /\
  totalSessionsCreated (snd (exec op st)) =
    totalSessionsCreated st + creations [op].
Proof.
  destruct op; cbn [exec]; unfold discard, bind.
  - cbn. split; [|reflexivity]. apply reg_steps_one. constructor.
  - read_through_getSession sessionId0 now st.
  - rewrite validateToken_eq.
    destruct (JsMap.get sessionId0 (sessions st)) as [s|];
      [destruct (now >? expiresAt s)|]; cbn; split; try lia; try constructor.
    apply reg_steps_one. constructor.
  - rewrite addClient_eq.
    destruct (JsMap.get sessionId0 (sessions st)) as [s|] eqn:G;
      [destruct (now >? expiresAt s);
       [|destruct (Nat.leb_spec 2 (JsMap.size (clients s)))]|];
      cbn; split; try lia; try constructor.
    + apply reg_steps_one. constructor.
    + apply reg_steps_one.
      apply (@reg_add _ sessionId0 s
               (mkClient clientId0 displayName0 socket0 joinedNow) G).
      lia.
  - rewrite removeClient_eq. cbn [snd].
    destruct (JsMap.get sessionId0 (sessions st)) as [s|] eqn:G;
      [destruct (JsMap.size (JsMap.delete clientId0 (clients s)) =? 0)%nat|];
      cbn; split; try lia; try constructor.
    + eapply reg_more; [apply reg_steps_one; apply (@reg_remove _ sessionId0 s clientId0 G)|].
      constructor.
    + apply reg_steps_one. apply (@reg_remove _ sessionId0 s clientId0 G).
  - unfold getClient. read_through_getSession sessionId0 now st.
  - unfold getOtherClient. read_through_getSession sessionId0 now st.
  - unfold getClients. read_through_getSession sessionId0 now st.
  - split.
    + rewrite deleteSession_sessions. apply reg_steps_one. constructor.
    + rewrite deleteSession_total. cbn. lia.
  - unfold cleanupExpiredSessions, bind, sessions_entries.
    destruct (sweep_loop_steps now (sessions st) 0 st) as [Hs Ht].
    destruct (sweep_loop now (sessions st) 0 st) as [n st1]. cbn [snd] in *.
    destruct (0 <? n)%nat; cbn; split; auto; lia.
  - unfold cleanup, bind, sessions_entries.
    destruct (for_each_delete_steps (JsMap.keys (sessions st)) st) as [Hs Ht].
    split; [exact Hs|]. rewrite Ht. cbn. lia.
Qed.

Lemma creations_cons op ops : creations (op :: ops) = creations [op] + creations ops.
Proof. unfold creations. cbn. destruct op; cbn [length]; lia. Qed.

Lemma run_steps ops : forall st,
  reg_steps (sessions st) (sessions (run ops st)) /\
  totalSessionsCreated (run ops st) = totalSessionsCreated st + creations ops.
Proof.
  induction ops as [|op ops IH]; intros st.
  - cbn. split; [constructor|lia].
  - cbn [run fold_left]. fold (run ops (snd (exec op st))).
    destruct (exec_steps op st) as [Hs Ht].
    destruct (IH (snd (exec op st))) as [IHs IHt]. split.
    + eapply reg_steps_trans; eauto.
    + rewrite IHt, Ht, (creations_cons op ops). lia.
Qed.

(** A property of the registry that every single change keeps holds along
    every history. *)
Section Invariant.
Variable R : JsMap.t Session -> Prop.
Hypothesis R_step : forall m m', R m -> reg_step m m' -> R m'.

Lemma invariant_steps m m' : R m -> reg_steps m m' -> R m'.
Proof. intros Hm Hs. induction Hs; eauto. Qed.

Lemma invariant_exec op st : R (sessions st) -> R (sessions (snd (exec op st))).
Proof. intros H. eapply invariant_steps; [exact H | apply exec_steps]. Qed.

Lemma invariant_run ops st : R (sessions st) -> R (sessions (run ops st)).
Proof. intros H. eapply invariant_steps; [exact H | apply run_steps]. Qed.

End Invariant.

End RegistrySteps.

(** ** The expiry sweep *)

Section Sweep.
Import JsMap JsMapFacts.
Local Open Scope Z_scope.

Lemma sweep_loop_eq now : forall l pre n st,
  sessions st = pre ++ l ->
  JsMap.wf (pre ++ l) ->
  sweep_loop now l n st =
  ((n + length (filter (fun e => expired now (snd e)) l))%nat,
   {| sessions := pre ++ filter (fun e => negb (expired now (snd e))) l;
      totalSessionsCreated := totalSessionsCreated st;
      closeLog := closeLog st ++
                  flat_map sockets_of (filter (fun e => expired now (snd e)) l);
      consoleLog := consoleLog st |}).
Proof.
  induction l as [|[sid s] l IH]; intros pre n st Hs Hwf.
  - cbn. unfold ret. rewrite Nat.add_0_r, !app_nil_r.
    rewrite app_nil_r in Hs. now rewrite <- Hs, state_eta.
  - cbn [sweep_loop filter snd].
    change (now >? expiresAt s) with (expired now s).
    destruct (expired now s) eqn:E; cbn [negb length flat_map].
    + unfold bind. rewrite deleteSession_eq, Hs. rewrite get_mid by exact Hwf.
      rewrite (IH pre (S n) (deleted sid s st)).
      * cbn. unfold sockets_of at 2. cbn [snd].
        rewrite <- app_assoc. f_equal. lia.
      * cbn. rewrite Hs. now apply delete_mid.
      * now apply wf_mid_absent in Hwf.
    + rewrite (IH (pre ++ [(sid, s)]) n st).
      * now rewrite <- app_assoc.
      * now rewrite <- app_assoc.
      * now rewrite <- app_assoc.
Qed.

Lemma cleanupExpiredSessions_eq now st :
  JsMap.wf (sessions st) ->
  cleanupExpiredSessions now st = (tt, swept now st).
Proof.
  intros Hwf. unfold cleanupExpiredSessions, bind, sessions_entries.
  rewrite (sweep_loop_eq now (sessions st) [] 0 st eq_refl Hwf).
  cbn [app Nat.add]. unfold swept.
  destruct (0 <? length (filter (fun e => expired now (snd e)) (sessions st)))%nat.
  - reflexivity.
  - unfold ret. cbn. now rewrite app_nil_r.
Qed.

End Sweep.

(** ** The membership bound and the well-formedness of the maps *)

Section Bounds.
Import JsMap JsMapFacts.
Local Open Scope Z_scope.

Lemma get_Forall (P : string * Session -> Prop) sid s (m : JsMap.t Session) :
  Forall P m -> JsMap.get sid m = Some s -> P (sid, s).
Proof.
  intros HF G. rewrite Forall_forall in HF. apply HF. now apply get_In.
Qed.

Lemma bounded_step m m' : bounded_registry m -> reg_step m m' -> bounded_registry m'.
Proof.
  unfold bounded_registry. intros Hb Hs.
  destruct Hs as [sid tok now | sid | sid s client G Hlt | sid s cid G].
  - apply Forall_set; [cbn; lia | exact Hb].
  - now apply Forall_delete.
  - apply Forall_set; [|exact Hb]. cbn [snd with_clients clients].
    rewrite size_set. destruct (has (clientId client) (clients s)); lia.
  - apply Forall_set; [|exact Hb]. cbn [snd left_by with_clients clients].
    pose proof (get_Forall _ Hb G) as Hle. cbn [snd] in Hle.
    pose proof (size_delete_le cid (clients s)). lia.
Qed.

Lemma wf_step m m' : wf_registry m -> reg_step m m' -> wf_registry m'.
Proof.
  unfold wf_registry. intros [Hw Hc] Hs.
  destruct Hs as [sid tok now | sid | sid s client G Hlt | sid s cid G].
  - split; [now apply wf_set|]. apply Forall_set; [|exact Hc]. constructor.
  - split; [now apply wf_delete | now apply Forall_delete].
  - split; [now apply wf_set|]. apply Forall_set; [|exact Hc].
    cbn [snd with_clients clients]. apply wf_set.
    exact (get_Forall _ Hc G).
  - split; [now apply wf_set|]. apply Forall_set; [|exact Hc].
    cbn [snd left_by with_clients clients]. apply wf_delete.
    exact (get_Forall _ Hc G).
Qed.

Lemma bounded_init : bounded_registry (sessions init).
Proof. constructor. Qed.

Lemma wf_init : wf_registry (sessions init).
Proof. split; constructor. Qed.

Lemma reachable_bounded ops : members_bounded (run ops init).
Proof. apply (@invariant_run bounded_registry bounded_step), bounded_init. Qed.

Lemma reachable_wf ops : store_wf (run ops init).
Proof. apply (@invariant_run wf_registry wf_step), wf_init. Qed.

End Bounds.

(** ** The claims about membership, the registry invariant and the sweep *)

Section Claims.
Import JsMap JsMapFacts.
Local Open Scope Z_scope.

(** C2. Adding a member to a registered session that already has two
    members fails: [addClient] answers [false] (the answer the join handler
    turns into SESSION_FULL). A live session and the whole store stay as
    they were; no session left in the registry has a membership other than
    the one it had. Every operation keeps every session at two members at
    most, so the bound holds after every history. *)
Theorem addClient_full (sid cid dn : string) (sock : Socket) (now j : Z)
    (s : Session) (st : State) :
  JsMap.get sid (sessions st) = Some s ->
  (2 <= JsMap.size (clients s))%nat ->
  let r := addClient sid cid dn sock now j st in
  fst r = false /\
  (now <= expiresAt s -> snd r = st) /\
  (forall k s', JsMap.get k (sessions (snd r)) = Some s' ->
                JsMap.get k (sessions st) = Some s') /\
  (forall op st0, members_bounded st0 -> members_bounded (snd (exec op st0))) /\
  (forall ops k s', JsMap.get k (sessions (run ops init)) = Some s' ->
                    (JsMap.size (clients s') <= 2)%nat).
Proof.
  intros G Hfull r. subst r. rewrite addClient_eq, G.
  apply Nat.leb_le in Hfull. rewrite Hfull.
  destruct (Z.gtb_spec now (expiresAt s)) as [Hgt|Hle]; cbn [fst snd].
  - split; [reflexivity|]. split; [lia|]. split.
    + intros k s' Hk. cbn in Hk.
      destruct (String.eqb_spec k sid) as [->|Hne].
      * now rewrite get_delete_same in Hk.
      * now rewrite get_delete_other in Hk.
    + split.
      * intros op st0. apply (@invariant_exec bounded_registry bounded_step).
      * intros ops k s' Hk.
        exact (get_Forall _ (reachable_bounded ops) Hk).
  - split; [reflexivity|]. split; [reflexivity|]. split; [auto|]. split.
    + intros op st0. apply (@invariant_exec bounded_registry bounded_step).
    + intros ops k s' Hk.
      exact (get_Forall _ (reachable_bounded ops) Hk).
Qed.

(** C3 (amended). For a live session and a client id that is already a
    member: while the session has fewer than two members [addClient]
    succeeds and replaces that member's record (display name, socket, join
    time) by the new one, the member ids, their order and their number
    staying the same and the other members untouched; with two members it
    fails and changes nothing. Membership is a map keyed by the client id,
    so the ids of a session stay pairwise distinct. *)
Theorem addClient_duplicate (sid cid dn : string) (sock : Socket) (now j : Z)
    (s : Session) (old : ClientConnection) (st : State) :
  JsMap.get sid (sessions st) = Some s ->
  now <= expiresAt s ->
  JsMap.get cid (clients s) = Some old ->
  let r := addClient sid cid dn sock now j st in
  let new := mkClient cid dn sock j in
  let members' := JsMap.set cid new (clients s) in
  ((JsMap.size (clients s) < 2)%nat ->
     fst r = true /\
     JsMap.get sid (sessions (snd r)) = Some (with_clients s members') /\
     JsMap.get cid members' = Some new /\
     JsMap.keys members' = JsMap.keys (clients s) /\
     JsMap.size members' = JsMap.size (clients s) /\
     (forall k, k <> cid -> JsMap.get k members' = JsMap.get k (clients s))) /\
  ((2 <= JsMap.size (clients s))%nat -> fst r = false /\ snd r = st) /\
  (JsMap.wf (clients s) -> JsMap.wf members').
Proof.
  intros G Hlive Hold r new members'. subst r.
  rewrite addClient_eq, G.
  destruct (Z.gtb_spec now (expiresAt s)) as [Hgt|_]; [lia|].
  split; [|split].
  - intros Hlt. apply Nat.leb_gt in Hlt. rewrite Hlt. cbn [fst snd].
    split; [reflexivity|]. split; [cbn; apply get_set_same|].
    split; [apply get_set_same|].
    split; [unfold members'; rewrite keys_set; unfold has; now rewrite Hold|].
    split; [unfold members'; rewrite size_set; unfold has; now rewrite Hold|].
    intros k Hk. now apply get_set_other.
  - intros Hfull. apply Nat.leb_le in Hfull. now rewrite Hfull.
  - apply wf_set.
Qed.

(** C6 (amended). One run of the sweeper at [now] deletes exactly the
    sessions with [expiresAt < now], calling [close()] on the socket of each
    of their members, and leaves every session with [now <= expiresAt]
    untouched, a session whose [expiresAt] equals [now] included. *)
Theorem sweep_boundary (now : Z) (st : State) :
  JsMap.wf (sessions st) ->
  let st' := snd (cleanupExpiredSessions now st) in
  (forall sid s, JsMap.get sid (sessions st) = Some s -> expiresAt s < now ->
     JsMap.get sid (sessions st') = None /\
     incl (map socket (JsMap.values (clients s))) (closeLog st')) /\
  (forall sid s, JsMap.get sid (sessions st) = Some s -> now <= expiresAt s ->
     JsMap.get sid (sessions st') = Some s) /\
  (forall sid, JsMap.get sid (sessions st) = None ->
     JsMap.get sid (sessions st') = None) /\
  sessions st' = filter (fun e => negb (expired now (snd e))) (sessions st) /\
  closeLog st' =
    closeLog st ++
    flat_map sockets_of (filter (fun e => expired now (snd e)) (sessions st)) /\
  totalSessionsCreated st' = totalSessionsCreated st.
Proof.
  intros Hwf st'. subst st'. rewrite cleanupExpiredSessions_eq by exact Hwf.
  cbn [snd swept sessions closeLog totalSessionsCreated].
  split; [|split; [|split; [|repeat split]]].
  - intros sid s G Hlt.
    assert (E : expired now s = true).
    { unfold expired. destruct (Z.gtb_spec now (expiresAt s)); [reflexivity|lia]. }
    split.
    + rewrite get_filter by exact Hwf. rewrite G. cbn [snd]. now rewrite E.
    + intros x Hx. apply in_or_app. right.
      apply in_flat_map. exists (sid, s). split; [|exact Hx].
      apply filter_In. split; [now apply get_In | exact E].
  - intros sid s G Hle.
    assert (E : expired now s = false).
    { unfold expired. destruct (Z.gtb_spec now (expiresAt s)); [lia|reflexivity]. }
    rewrite get_filter by exact Hwf. rewrite G. cbn [snd]. now rewrite E.
  - intros sid G. rewrite get_filter by exact Hwf. now rewrite G.
Qed.

(** C1 (amended). After every history of calls on a fresh store: every
    session in the registry has at most two members; [createSession]
    registers its record with no member and with [expiresAt] after the
    creation time; a session that [getSession] returns at [now] is
    registered and has [now <= expiresAt]; and after a sweep at [now] every
    session left in the registry has [now <= expiresAt]. *)
Theorem registry_invariant (ops : list Op) :
  let st := run ops init in
  (forall sid s, JsMap.get sid (sessions st) = Some s ->
     (JsMap.size (clients s) <= 2)%nat) /\
  (forall sid tok now,
     let s := fst (createSession sid tok now st) in
     JsMap.get sid (sessions (snd (createSession sid tok now st))) = Some s /\
     JsMap.size (clients s) = 0%nat /\
     now < expiresAt s) /\
  (forall sid now s, fst (getSession sid now st) = Some s ->
     JsMap.get sid (sessions st) = Some s /\ now <= expiresAt s) /\
  (forall now sid s,
     JsMap.get sid (sessions (snd (cleanupExpiredSessions now st))) = Some s ->
     now <= expiresAt s).
Proof.
  intros st. split; [|split; [|split]].
  - intros sid s G. exact (get_Forall _ (reachable_bounded ops) G).
  - intros sid tok now. cbn. split; [apply get_set_same|].
    split; [reflexivity|]. unfold TTL. lia.
  - intros sid now s. rewrite getSession_eq.
    destruct (JsMap.get sid (sessions st)) as [s0|]; [|discriminate].
    destruct (Z.gtb_spec now (expiresAt s0)); cbn; [discriminate|].
    intros [= ->]. split; [reflexivity|assumption].
  - intros now sid s.
    destruct (reachable_wf ops) as [Hwf _]. fold st in Hwf.
    rewrite cleanupExpiredSessions_eq by exact Hwf. cbn [snd swept sessions].
    rewrite get_filter by exact Hwf.
    destruct (JsMap.get sid (sessions st)) as [s0|]; [|discriminate].
    cbn [snd]. unfold expired.
    destruct (Z.gtb_spec now (expiresAt s0)); cbn; [discriminate|].
    now intros [= <-].
Qed.

End Claims.

(** ** The statistics endpoint *)

Section Statistics.
Import JsMap JsMapFacts.
Local Open Scope Z_scope.

Lemma connection_count_acc (l : list Session) : forall acc : Z,
  fold_left (fun count session => count + Z.of_nat (JsMap.size (clients session)))
            l acc =
  acc + Z.of_nat (length (flat_map (fun s => JsMap.values (clients s)) l)).
Proof.
  induction l as [|s l IH]; intros acc; cbn [fold_left flat_map length].
  - lia.
  - rewrite IH, length_app. unfold JsMap.values, JsMap.size.
    rewrite length_map. lia.
Qed.

Lemma getActiveConnectionCount_eq st :
  getActiveConnectionCount st =
  Z.of_nat (length (flat_map (fun s => JsMap.values (clients s))
                             (JsMap.values (sessions st)))).
Proof. unfold getActiveConnectionCount. now rewrite connection_count_acc. Qed.

(** C10 (amended). After every history the statistics body consists of the
    two live counters, the number of sessions in the registry and the
    number of member connections over all of them, and of one cumulative
    total, the number of sessions created since the store was made; the
    second entry point appends the process uptime and a timestamp. The body
    has no field for expired sessions. *)
Theorem stats_body (ops : list Op) (uptime : JValue) (timestamp : string) :
  let st := run ops init in
  stats st =
    [ ("activeSessions"%string, JNum (Z.of_nat (JsMap.size (sessions st))));
      ("activeConnections"%string,
       JNum (Z.of_nat (length (flat_map (fun s => JsMap.values (clients s))
                                        (JsMap.values (sessions st))))));
      ("totalSessionsCreated"%string, JNum (creations ops)) ] /\
  stats_with_uptime uptime timestamp st =
    stats st ++ [ ("uptime"%string, uptime);
                  ("timestamp"%string, JStr timestamp) ].
Proof.
  intros st. split; [|reflexivity].
  unfold stats, getActiveSessionCount, getTotalSessionsCreated.
  rewrite getActiveConnectionCount_eq.
  destruct (run_steps ops init) as [_ Ht]. fold st in Ht. rewrite Ht.
  reflexivity.
Qed.

End Statistics.

(** ** Concrete runs *)

Section Runs.
Import JsMap JsMapFacts.
Local Open Scope Z_scope.
Local Open Scope string_scope.

Lemma wf_st_pair : JsMap.wf (sessions st_pair).
Proof. exact (proj1 (reachable_wf history_pair)). Qed.

Lemma wf_st_created : JsMap.wf (sessions st_created).
Proof. exact (proj1 (reachable_wf [OpCreateSession "S" "K" 0])). Qed.

(** C1, counterexample. Right after [createSession] the registered session
    has no member, and a session with one member is still registered, and
    returned by [getSession], at the millisecond [now = expiresAt]. *)
Lemma A1_fails_after_create :
  ~ A1 0 st_created /\
  ~ A1 3600000 st_single /\
  fst (getSession "S" 3600000 st_single) = Some session_single.
Proof.
  split; [|split].
  - intros H.
    destruct (H "S" (mkSession "S" "K" 0 3600000 []) eq_refl) as [_ [Hlo _]].
    cbn in Hlo. lia.
  - intros H. destruct (H "S" session_single eq_refl) as [Hlt _].
    cbn in Hlt. lia.
  - reflexivity.
Qed.

Lemma registry_invariant_witness :
  (JsMap.size (clients session_pair) <= 2)%nat /\
  3600000 <= expiresAt session_single.
Proof.
  destruct (registry_invariant history_pair) as (Hb & _ & _ & _).
  destruct (registry_invariant
              [OpCreateSession "S" "K" 0; OpAddClient "S" "A" "Alice" 1%nat 0 0])
    as (_ & _ & Hg & _).
  split.
  - exact (Hb "S" session_pair eq_refl).
  - exact (proj2 (Hg "S" 3600000 session_single eq_refl)).
Defined.

Lemma addClient_full_witness :
  fst (addClient "S" "C" "Carol" 3%nat 2000 2000 st_pair) = false /\
  snd (addClient "S" "C" "Carol" 3%nat 2000 2000 st_pair) = st_pair.
Proof.
  destruct (@addClient_full "S" "C" "Carol" 3%nat 2000 2000 session_pair st_pair
              eq_refl (le_n 2)) as (Hf & Hs & _).
  split; [exact Hf|]. apply Hs. cbn. lia.
Defined.

(** C3, counterexample. In the session that "A" created, a second
    [addClient] under the id "A" succeeds and rebinds the member to the new
    socket. *)
Lemma duplicate_not_rejected : ~ duplicate_rejected.
Proof.
  intros H.
  destruct (H "S" "A" "Mallory" 9%nat 1 1 session_single st_single
              eq_refl ltac:(cbn; lia) eq_refl) as [Hf _].
  vm_compute in Hf. discriminate.
Qed.

Lemma addClient_duplicate_witness :
  fst (addClient "S" "A" "Mallory" 9%nat 1 1 st_single) = true /\
  JsMap.get "S" (sessions (snd (addClient "S" "A" "Mallory" 9%nat 1 1 st_single)))
  = Some (mkSession "S" "K" 0 3600000 [("A", mkClient "A" "Mallory" 9%nat 1)]).
Proof.
  destruct (@addClient_duplicate "S" "A" "Mallory" 9%nat 1 1 session_single
              (mkClient "A" "Alice" 1%nat 0) st_single
              eq_refl ltac:(cbn; lia) eq_refl) as (Hadd & _ & _).
  destruct (Hadd ltac:(cbn; lia)) as (Ht & Hg & _).
  split; [exact Ht | exact Hg].
Defined.

Lemma removeClient_spec_witness :
  JsMap.get "S" (sessions (snd (removeClient "S" "A" st_single))) = None /\
  JsMap.get "S" (sessions (snd (removeClient "S" "B" st_pair)))
  = Some (left_by "B" session_pair).
Proof.
  destruct (@removeClient_spec "S" "A" session_single st_single eq_refl)
    as (_ & _ & Hempty & _).
  destruct (@removeClient_spec "S" "B" session_pair st_pair eq_refl)
    as (_ & _ & _ & Hrest & _).
  split.
  - exact (proj1 (Hempty eq_refl)).
  - apply Hrest. cbn. lia.
Defined.

(** C6, counterexample. A session created at time 0 expires at 3,600,000;
    the sweep that runs at exactly that millisecond keeps it. *)
Lemma sweep_keeps_boundary_session : ~ sweep_deletes_at_or_before.
Proof.
  intros H.
  pose proof (H 3600000 st_created "S" (mkSession "S" "K" 0 3600000 [])
                wf_st_created eq_refl ltac:(cbn; lia)) as Hnone.
  vm_compute in Hnone. discriminate.
Qed.

Lemma sweep_boundary_witness :
  JsMap.get "S" (sessions (snd (cleanupExpiredSessions 3600001 st_pair))) = None /\
  JsMap.get "S" (sessions (snd (cleanupExpiredSessions 3600000 st_pair)))
  = Some session_pair.
Proof.
  destruct (@sweep_boundary 3600001 st_pair wf_st_pair) as (Hgone & _).
  destruct (@sweep_boundary 3600000 st_pair wf_st_pair) as (_ & Hkept & _).
  split.
  - exact (proj1 (Hgone "S" session_pair eq_refl ltac:(cbn; lia))).
  - exact (Hkept "S" session_pair eq_refl ltac:(cbn; lia)).
Defined.

Lemma lazy_expiry_on_read_witness :
  getSession "S" 3600001 st_pair = (None, deleted "S" session_pair st_pair) /\
  closeLog (deleted "S" session_pair st_pair) = [1%nat; 2%nat].
Proof.
  destruct (@lazy_expiry_on_read "S" session_pair 3600001 st_pair
              eq_refl ltac:(cbn; lia)) as (Hg & _ & _ & _ & _ & _ & _ & Hc & _).
  split; [exact Hg | exact Hc].
Defined.

Lemma validateToken_spec_witness :
  fst (validateToken "S" "K" 1000 st_single) = true /\
  fst (validateToken "S" "wrong" 1000 st_single) = false /\
  fst (validateToken "T" "K" 1000 st_single) = false.
Proof.
  split; [|split].
  - apply (proj1 (validateToken_spec "S" "K" 1000 st_single)).
    exists session_single. repeat split. cbn. lia.
  - apply (proj2 (validateToken_spec "S" "wrong" 1000 st_single)).
    right. exists session_single. split; [reflexivity|]. right. discriminate.
  - apply (proj2 (validateToken_spec "T" "K" 1000 st_single)).
    now left.
Defined.

(** C10, counterexample. One history ends with a session swept as expired,
    the other with the session left by its only member before its expiry; the statistics
    bodies of the two are the same, so no reading of the body gives the
    number of expired sessions. *)
Lemma stats_lack_expired_total :
  ~ reports_expired_total stats /\
  (forall uptime timestamp,
     ~ reports_expired_total (stats_with_uptime uptime timestamp)).
Proof.
  split; [|intros uptime timestamp]; intros [read H];
    pose proof (H history_expired) as H1;
    pose proof (H history_closed) as H2;
    vm_compute in H1, H2; congruence.
Qed.

End Runs.

(** ** Further properties of the session store *)

Section StoreExtras.
Import JsMap JsMapFacts.
Local Open Scope Z_scope.

Lemma set_absent_app (V : Type) k (v : V) m :
  JsMap.has k m = false -> JsMap.set k v m = m ++ [(k, v)].
Proof.
  unfold has. induction m as [|[k' v'] m IH]; cbn; auto.
  destruct (String.eqb k k'); [discriminate|].
  intros H. now rewrite IH.
Qed.

Lemma set_same_noop (V : Type) k (v : V) m :
  JsMap.get k m = Some v -> JsMap.set k v m = m.
Proof.
  induction m as [|[k' v'] m IH]; cbn; [discriminate|].
  destruct (String.eqb_spec k k') as [->|_].
  - now intros [= ->].
  - intros H. now rewrite IH.
Qed.

Lemma set_set_same (V : Type) k (v v' : V) m :
  JsMap.set k v (JsMap.set k v' m) = JsMap.set k v m.
Proof.
  induction m as [|[k' w] m IH]; cbn.
  - now rewrite String.eqb_refl.
  - destruct (String.eqb k k') eqn:E; cbn; rewrite ?E, ?String.eqb_refl; auto.
    now rewrite IH.
Qed.

Lemma delete_last_absent (V : Type) k (v : V) m :
  JsMap.has k m = false -> JsMap.delete k (m ++ [(k, v)]) = m.
Proof.
  unfold has. intros H. rewrite delete_app. cbn. rewrite String.eqb_refl.
  rewrite app_nil_r. apply delete_absent.
  now destruct (JsMap.get k m).
Qed.

Lemma with_clients_same s : with_clients s (clients s) = s.
Proof. now destruct s. Qed.

Lemma has_false_get (V : Type) k (m : JsMap.t V) :
  JsMap.has k m = false -> JsMap.get k m = None.
Proof. unfold has. now destruct (JsMap.get k m). Qed.

(** X1. A client id that is not yet a member of a live session with fewer
    than two members is added as its last member, under its own id and with
    the given name, socket and join time; token and expiry of the session,
    the other members, the other sessions and the sockets stay as they
    were. *)
Theorem addClient_new_member (sid cid dn : string) (sock : Socket) (now j : Z)
    (s : Session) (st : State) :
  JsMap.get sid (sessions st) = Some s ->
  now <= expiresAt s ->
  (JsMap.size (clients s) < 2)%nat ->
  JsMap.has cid (clients s) = false ->
  let r := addClient sid cid dn sock now j st in
  let s' := with_clients s (clients s ++ [(cid, mkClient cid dn sock j)]) in
  fst r = true /\
  JsMap.get sid (sessions (snd r)) = Some s' /\
  JsMap.size (clients s') = S (JsMap.size (clients s)) /\
  JsMap.get cid (clients s') = Some (mkClient cid dn sock j) /\
  (forall k, k <> cid -> JsMap.get k (clients s') = JsMap.get k (clients s)) /\
  token s' = token s /\ expiresAt s' = expiresAt s /\
  (forall k, k <> sid ->
     JsMap.get k (sessions (snd r)) = JsMap.get k (sessions st)) /\
  closeLog (snd r) = closeLog st /\
  totalSessionsCreated (snd r) = totalSessionsCreated st.
Proof.
  intros G Hlive Hlt Habs r s'. subst r s'.
  rewrite addClient_eq, G.
  destruct (Z.gtb_spec now (expiresAt s)) as [Hgt|_]; [lia|].
  apply Nat.leb_gt in Hlt. rewrite Hlt. cbn [fst snd joined sessions clientId].
  rewrite (@set_absent_app _ cid (mkClient cid dn sock j) (clients s) Habs).
  split; [reflexivity|]. split; [apply get_set_same|].
  cbn [with_clients clients]. unfold size. rewrite length_app. cbn [length].
  split; [lia|].
  rewrite <- (@set_absent_app _ cid (mkClient cid dn sock j) (clients s) Habs).
  split; [apply get_set_same|].
  split; [intros k Hk; now apply get_set_other|].
  repeat split. intros k Hk. now apply get_set_other.
Qed.

(** X2. [addClient] succeeds exactly when the session is registered, not
    expired and has fewer than two members; a refused call on an unknown or
    unexpired session leaves the store exactly as it was. *)
Theorem addClient_outcome (sid cid dn : string) (sock : Socket) (now j : Z)
    (st : State) :
  let r := addClient sid cid dn sock now j st in
  (fst r = true <->
     exists s, JsMap.get sid (sessions st) = Some s /\
               now <= expiresAt s /\ (JsMap.size (clients s) < 2)%nat) /\
  (fst r = false ->
     (JsMap.get sid (sessions st) = None \/
      exists s, JsMap.get sid (sessions st) = Some s /\ now <= expiresAt s) ->
     snd r = st).
Proof.
  intros r. subst r. rewrite addClient_eq.
  destruct (JsMap.get sid (sessions st)) as [s|] eqn:G.
  - destruct (Z.gtb_spec now (expiresAt s)) as [Hgt|Hle]; cbn [fst snd].
    + split.
      * split; [discriminate|]. intros (s0 & [= <-] & Hl & _). lia.
      * intros _ [[=]|(s0 & [= <-] & Hl)]. lia.
    + destruct (Nat.leb_spec 2 (JsMap.size (clients s))) as [Hfull|Hroom];
        cbn [fst snd].
      * split; [|reflexivity].
        split; [discriminate|]. intros (s0 & [= <-] & _ & Hlt). lia.
      * split; [|discriminate]. split; [|reflexivity].
        intros _. exists s. auto.
  - cbn. split; [|reflexivity].
    split; [discriminate|]. intros (s0 & [=] & _).
Qed.

End StoreExtras.

(** ** Reads, shutdown and repeated sweeps *)

Section ReadsAndSweeps.
Import JsMap JsMapFacts.
Local Open Scope Z_scope.

Lemma find_other_member (l : JsMap.t ClientConnection) cid k c :
  JsMap.wf l -> (JsMap.size l <= 2)%nat -> JsMap.has cid l = true ->
  k <> cid -> JsMap.get k l = Some c ->
  find (fun e => negb (String.eqb (fst e) cid)) l = Some (k, c).
Proof.
  unfold wf, has, size.
  destruct l as [|[a x] [|[b y] [|? ?]]]; cbn; intros Hwf Hsz Hin Hk Hg;
    try discriminate; try lia.
  - destruct (String.eqb_spec cid a), (String.eqb_spec k a),
      (String.eqb_spec a cid); subst; cbn; try congruence; discriminate.
  - inversion Hwf as [|? ? Hnotin _]; subst. cbn in Hnotin.
    destruct (String.eqb_spec cid a), (String.eqb_spec k a),
      (String.eqb_spec a cid), (String.eqb_spec cid b),
      (String.eqb_spec k b), (String.eqb_spec b cid);
      subst; cbn; try congruence; try tauto; try discriminate.
Qed.

Lemma find_no_other (l : JsMap.t ClientConnection) cid :
  (forall k, k <> cid -> JsMap.get k l = None) ->
  find (fun e => negb (String.eqb (fst e) cid)) l = None.
Proof.
  induction l as [|[a x] l IH]; cbn; auto. intros H.
  destruct (String.eqb_spec a cid) as [->|Hne]; cbn.
  - apply IH. intros k Hk. specialize (H k Hk).
    destruct (String.eqb_spec k cid); [contradiction | exact H].
  - specialize (H a Hne). now rewrite String.eqb_refl in H.
Qed.

(** X3. In a live session with at most two members, the peer that
    [getOtherClient] returns to a member is the other member, whatever
    their order of arrival, and nothing when the member is alone; the store
    is not changed. *)
Theorem getOtherClient_peer (sid cid : string) (now : Z) (s : Session)
    (me : ClientConnection) (st : State) :
  JsMap.get sid (sessions st) = Some s ->
  now <= expiresAt s ->
  JsMap.wf (clients s) ->
  (JsMap.size (clients s) <= 2)%nat ->
  JsMap.get cid (clients s) = Some me ->
  (forall k c, k <> cid -> JsMap.get k (clients s) = Some c ->
     getOtherClient sid cid now st = (Some c, st)) /\
  ((forall k, k <> cid -> JsMap.get k (clients s) = None) ->
     getOtherClient sid cid now st = (None, st)).
Proof.
  intros G Hlive Hwf Hsz Hme.
  unfold getOtherClient, bind. rewrite (getSession_live sid st G Hlive).
  unfold ret. split.
  - intros k c Hk Hg.
    assert (Hin : JsMap.has cid (clients s) = true)
      by (unfold has; now rewrite Hme).
    now rewrite (@find_other_member (clients s) cid k c Hwf Hsz Hin Hk Hg).
  - intros Halone. now rewrite find_no_other.
Qed.

(** X4. A read of an unknown session, or of a session that is not past its
    expiry, leaves the store exactly as it was and answers from the stored
    record: [getSession] the record, [getClient] the member under that id,
    [getClients] the members in their order of arrival, [validateToken] the
    comparison of the tokens. *)
Theorem live_reads_leave_store (sid : string) (now : Z) (st : State) :
  (JsMap.get sid (sessions st) = None \/
   exists s, JsMap.get sid (sessions st) = Some s /\ now <= expiresAt s) ->
  getSession sid now st = (JsMap.get sid (sessions st), st) /\
  (forall tok,
     validateToken sid tok now st =
     (match JsMap.get sid (sessions st) with
      | Some s => String.eqb (token s) tok
      | None => false
      end, st)) /\
  (forall cid,
     getClient sid cid now st =
     (match JsMap.get sid (sessions st) with
      | Some s => JsMap.get cid (clients s)
      | None => None
      end, st)) /\
  (forall cid, snd (getOtherClient sid cid now st) = st) /\
  getClients sid now st =
    (match JsMap.get sid (sessions st) with
     | Some s => JsMap.values (clients s)
     | None => []
     end, st).
Proof.
  intros H.
  assert (E : getSession sid now st = (JsMap.get sid (sessions st), st)).
  { destruct H as [G|(s & G & Hlive)].
    - rewrite G. now apply getSession_missing.
    - rewrite G. now apply getSession_live. }
  split; [exact E|].
  unfold validateToken, getClient, getOtherClient, getClients, bind.
  rewrite E. repeat split.
Qed.

Lemma for_each_delete_all : forall (l : JsMap.t Session) st,
  sessions st = l -> JsMap.wf l ->
  for_each (JsMap.keys l) deleteSession st =
  (tt, {| sessions := [];
          totalSessionsCreated := totalSessionsCreated st;
          closeLog := closeLog st ++ flat_map sockets_of l;
          consoleLog := consoleLog st |}).
Proof.
  induction l as [|[sid s] l IH]; intros st Hs Hwf.
  - cbn. unfold ret. rewrite app_nil_r, <- Hs. now rewrite state_eta.
  - cbn [keys map fst for_each]. unfold bind.
    rewrite deleteSession_eq, Hs.
    change ((sid, s) :: l) with ([] ++ (sid, s) :: l) in *.
    rewrite get_mid by exact Hwf.
    fold (keys l). rewrite (IH (deleted sid s st)).
    + cbn. unfold sockets_of at 2. cbn [snd]. now rewrite <- app_assoc.
    + cbn. rewrite Hs. now rewrite delete_mid by exact Hwf.
    + apply wf_mid_absent in Hwf. tauto.
Qed.

(** X5. Shutdown: [cleanup] calls [close()] on the socket of every member
    of every registered session, session by session in registry order, and
    leaves the registry empty; the count of sessions created is kept. *)
Theorem cleanup_closes_everything (st : State) :
  JsMap.wf (sessions st) ->
  cleanup st =
  (tt, {| sessions := [];
          totalSessionsCreated := totalSessionsCreated st;
          closeLog := closeLog st ++ flat_map sockets_of (sessions st);
          consoleLog := consoleLog st |}).
Proof.
  intros Hwf. unfold cleanup, bind, sessions_entries.
  now apply for_each_delete_all.
Qed.

Lemma wf_filter (V : Type) (f : string * V -> bool) (m : JsMap.t V) :
  JsMap.wf m -> JsMap.wf (filter f m).
Proof.
  unfold wf, keys. induction m as [|[k v] m IH]; cbn; auto.
  intros Hnd. inversion Hnd as [|? ? Hnotin Hnd']; subst.
  destruct (f (k, v)); cbn; auto.
  constructor; auto. intros Hin. apply Hnotin.
  apply in_map_iff in Hin. destruct Hin as (e & He & Hin).
  apply filter_In in Hin. apply in_map_iff. exists e. tauto.
Qed.

Lemma filter_filter_same (A : Type) (f g : A -> bool) (l : list A) :
  (forall x, f x = true -> g x = true) -> filter g (filter f l) = filter f l.
Proof.
  intros H. induction l as [|x l IH]; cbn; auto.
  destruct (f x) eqn:F; cbn; auto. now rewrite (H x F), IH.
Qed.

Lemma filter_filter_none (A : Type) (f g : A -> bool) (l : list A) :
  (forall x, f x = true -> g x = false) -> filter g (filter f l) = [].
Proof.
  intros H. induction l as [|x l IH]; cbn; auto.
  destruct (f x) eqn:F; cbn; auto. now rewrite (H x F), IH.
Qed.

(** X6. Sweeping again at the same or an earlier clock reading changes
    nothing: no session is deleted, no socket closed, nothing printed. *)
Theorem sweep_again_is_noop (now now' : Z) (st : State) :
  JsMap.wf (sessions st) ->
  now' <= now ->
  cleanupExpiredSessions now' (snd (cleanupExpiredSessions now st)) =
  (tt, snd (cleanupExpiredSessions now st)).
Proof.
  intros Hwf Hle. rewrite (@cleanupExpiredSessions_eq now st Hwf). cbn [snd].
  rewrite cleanupExpiredSessions_eq by (cbn; now apply wf_filter).
  f_equal. unfold swept at 1. cbn [sessions totalSessionsCreated closeLog consoleLog swept].
  rewrite filter_filter_same, filter_filter_none.
  - cbn. now rewrite !app_nil_r.
  - intros [k s]. unfold expired. cbn [snd].
    destruct (Z.gtb_spec now (expiresAt s)), (Z.gtb_spec now' (expiresAt s));
      cbn; auto; lia.
  - intros [k s]. unfold expired. cbn [snd].
    destruct (Z.gtb_spec now (expiresAt s)), (Z.gtb_spec now' (expiresAt s));
      cbn; auto; lia.
Qed.

End ReadsAndSweeps.

(** ** What a session keeps for its whole life *)

Section Identity.
Import JsMap JsMapFacts.
Local Open Scope Z_scope.

Lemma keyed_step m m' : keyed_registry m -> reg_step m m' -> keyed_registry m'.
Proof.
  unfold keyed_registry. intros Hk Hs.
  destruct Hs as [sid tok now | sid | sid s client G Hlt | sid s cid G].
  - apply Forall_set; [|exact Hk]. cbn. repeat split. constructor.
  - now apply Forall_delete.
  - apply Forall_set; [|exact Hk].
    destruct (get_Forall _ Hk G) as (H1 & H2 & H3). cbn in *.
    repeat split; auto. now apply Forall_set.
  - apply Forall_set; [|exact Hk].
    destruct (get_Forall _ Hk G) as (H1 & H2 & H3). cbn in *.
    repeat split; auto. now apply Forall_delete.
Qed.

Lemma reachable_keyed ops : keyed_registry (sessions (run ops init)).
Proof. apply (@invariant_run keyed_registry keyed_step). constructor. Qed.

(** X7. After every history of calls on a fresh store, a registered
    session sits under its own [sessionId], expires exactly [TTL]
    milliseconds after its creation (no operation extends a session), and
    holds every member under the member's own [clientId]. *)
Theorem registry_is_keyed (ops : list Op) (sid : string) (s : Session) :
  JsMap.get sid (sessions (run ops init)) = Some s ->
  sessionId s = sid /\
  expiresAt s = createdAt s + 3600000 /\
  (forall cid c, JsMap.get cid (clients s) = Some c -> clientId c = cid).
Proof.
  intros G. destruct (get_Forall _ (reachable_keyed ops) G) as (H1 & H2 & H3).
  cbn [fst snd] in *. repeat split; auto.
  intros cid c Hc. rewrite Forall_forall in H3.
  exact (H3 (cid, c) (get_In _ _ Hc)).
Qed.

Lemma get_delete_Some (V : Type) k k' (m : JsMap.t V) v :
  JsMap.get k' (JsMap.delete k m) = Some v -> JsMap.get k' m = Some v.
Proof.
  destruct (String.eqb_spec k' k) as [->|Hne].
  - now rewrite get_delete_same.
  - now rewrite get_delete_other.
Qed.

Lemma same_identity_refl s : same_identity s s.
Proof. now repeat split. Qed.

Lemma same_identity_trans s1 s2 s3 :
  same_identity s1 s2 -> same_identity s2 s3 -> same_identity s1 s3.
Proof. unfold same_identity. intuition congruence. Qed.

Lemma sweep_loop_submap now l : forall n st k v,
  JsMap.get k (sessions (snd (sweep_loop now l n st))) = Some v ->
  JsMap.get k (sessions st) = Some v.
Proof.
  induction l as [|[sid s] l IH]; intros n st k v; cbn [sweep_loop]; auto.
  destruct (now >? expiresAt s); [|apply IH].
  unfold bind. destruct (deleteSession sid st) as [u st1] eqn:E.
  assert (E1 : st1 = snd (deleteSession sid st)) by now rewrite E.
  intros H. apply IH in H. rewrite E1, deleteSession_sessions in H.
  now apply get_delete_Some in H.
Qed.

Lemma for_each_delete_submap l : forall st k v,
  JsMap.get k (sessions (snd (for_each l deleteSession st))) = Some v ->
  JsMap.get k (sessions st) = Some v.
Proof.
  induction l as [|sid l IH]; intros st k v; cbn [for_each]; auto.
  unfold bind. destruct (deleteSession sid st) as [u st1] eqn:E.
  assert (E1 : st1 = snd (deleteSession sid st)) by now rewrite E.
  intros H. apply IH in H. rewrite E1, deleteSession_sessions in H.
  now apply get_delete_Some in H.
Qed.

Lemma getSession_submap sid0 now st k v :
  JsMap.get k (sessions (snd (getSession sid0 now st))) = Some v ->
  JsMap.get k (sessions st) = Some v.
Proof.
  rewrite getSession_eq.
  destruct (JsMap.get sid0 (sessions st)) as [s0|]; auto.
  destruct (now >? expiresAt s0); auto. cbn. apply get_delete_Some.
Qed.


Lemma exec_keeps_identity op st sid s' :
  creates sid op = false ->
  JsMap.get sid (sessions (snd (exec op st))) = Some s' ->
  exists s, JsMap.get sid (sessions st) = Some s /\ same_identity s s'.
Proof.
  assert (Same : forall st0, JsMap.get sid (sessions st0) = Some s' ->
            exists s, JsMap.get sid (sessions st0) = Some s /\ same_identity s s')
    by (intros st0 H; exists s'; split; [exact H | apply same_identity_refl]).
  intros Hc. destruct op; cbn [exec creates] in *; unfold discard, bind.
  - cbn. apply String.eqb_neq in Hc. rewrite get_set_other by congruence.
    apply Same.
  - pose proof (@getSession_submap sessionId0 now st sid s') as Hsub.
    destruct (getSession sessionId0 now st). cbn in *. intros H.
    apply Same. auto.
  - pose proof (@getSession_submap sessionId0 now st sid s') as Hsub.
    unfold validateToken, bind.
    destruct (getSession sessionId0 now st). cbn in *. intros H.
    apply Same. auto.
  - rewrite addClient_eq.
    destruct (JsMap.get sessionId0 (sessions st)) as [s0|] eqn:G;
      [destruct (now >? expiresAt s0);
       [|destruct (2 <=? JsMap.size (clients s0))%nat]|]; cbn; try apply Same.
    + intros H. apply Same. now apply get_delete_Some in H.
    + destruct (String.eqb_spec sid sessionId0) as [->|Hne].
      * rewrite get_set_same. intros [= <-]. exists s0. split; [exact G|].
        now repeat split.
      * rewrite get_set_other by exact Hne. apply Same.
  - rewrite removeClient_eq. cbn [snd].
    destruct (JsMap.get sessionId0 (sessions st)) as [s0|] eqn:G;
      [destruct (JsMap.size (JsMap.delete clientId0 (clients s0)) =? 0)%nat|];
      cbn; try apply Same.
    + intros H. apply get_delete_Some in H. revert H.
      destruct (String.eqb_spec sid sessionId0) as [->|Hne].
      * rewrite get_set_same. intros [= <-]. exists s0. split; [exact G|].
        now repeat split.
      * rewrite get_set_other by exact Hne. apply Same.
    + destruct (String.eqb_spec sid sessionId0) as [->|Hne].
      * rewrite get_set_same. intros [= <-]. exists s0. split; [exact G|].
        now repeat split.
      * rewrite get_set_other by exact Hne. apply Same.
  - pose proof (@getSession_submap sessionId0 now st sid s') as Hsub.
    unfold getClient, bind.
    destruct (getSession sessionId0 now st). cbn in *. intros H.
    apply Same. auto.
  - pose proof (@getSession_submap sessionId0 now st sid s') as Hsub.
    unfold getOtherClient, bind.
    destruct (getSession sessionId0 now st). cbn in *. intros H.
    apply Same. auto.
  - pose proof (@getSession_submap sessionId0 now st sid s') as Hsub.
    unfold getClients, bind.
    destruct (getSession sessionId0 now st). cbn in *. intros H.
    apply Same. auto.
  - rewrite deleteSession_sessions. intros H. apply Same.
    now apply get_delete_Some in H.
  - unfold cleanupExpiredSessions, bind, sessions_entries.
    pose proof (@sweep_loop_submap now (sessions st) 0%nat st sid s') as Hsub.
    destruct (sweep_loop now (sessions st) 0 st) as [n st1]. cbn [snd] in *.
    intros H. apply Same. apply Hsub.
    destruct (0 <? n)%nat; exact H.
  - unfold cleanup, bind, sessions_entries. intros H. apply Same.
    now apply for_each_delete_submap in H.
Qed.

(** X8. Along a history that contains no [createSession] drawing the id
    [sid], a session found under [sid] at the end was there from the start
    with the same id, token, creation and expiry time; so an id that was
    unknown, or whose session was deleted, stays unknown. *)
Theorem identity_is_stable (ops : list Op) (sid : string) :
  forallb (fun op => negb (creates sid op)) ops = true ->
  forall st,
    (forall s', JsMap.get sid (sessions (run ops st)) = Some s' ->
       exists s, JsMap.get sid (sessions st) = Some s /\ same_identity s s') /\
    (JsMap.get sid (sessions st) = None ->
       JsMap.get sid (sessions (run ops st)) = None).
Proof.
  induction ops as [|op ops IH]; intros Hall st.
  - cbn. split; [|auto]. intros s' H. exists s'. split; [exact H|].
    apply same_identity_refl.
  - cbn [forallb] in Hall. apply andb_prop in Hall. destruct Hall as [Hop Hall].
    apply negb_true_iff in Hop.
    cbn [run fold_left]. fold (run ops (snd (exec op st))).
    destruct (IH Hall (snd (exec op st))) as [IHs IHn].
    assert (Hs : forall s', JsMap.get sid (sessions (run ops (snd (exec op st)))) = Some s' ->
              exists s, JsMap.get sid (sessions st) = Some s /\ same_identity s s').
    { intros s' H. destruct (IHs s' H) as (s1 & G1 & I1).
      destruct (@exec_keeps_identity op st sid s1 Hop G1) as (s & G & I).
      exists s. split; [exact G|]. eapply same_identity_trans; eauto. }
    split; [exact Hs|].
    intros Hnone.
    destruct (JsMap.get sid (sessions (run ops (snd (exec op st))))) as [s'|] eqn:E;
      [|reflexivity].
    destruct (Hs s' eq_refl) as (s & G & _). congruence.
Qed.

End Identity.

(** ** Counters, and adding and removing a member *)

Section CountersAndRoundTrips.
Import JsMap JsMapFacts.
Local Open Scope Z_scope.

Lemma connections_le_twice (l : JsMap.t Session) :
  bounded_registry l ->
  (length (flat_map (fun s => JsMap.values (clients s)) (JsMap.values l))
   <= 2 * length l)%nat.
Proof.
  unfold bounded_registry. induction l as [|[k s] l IH]; cbn; [lia|].
  intros Hb. inversion Hb as [|? ? Hs Hl]; subst. cbn [snd] in Hs.
  rewrite length_app. unfold size in Hs. specialize (IH Hl).
  unfold values in *. rewrite length_map. lia.
Qed.

(** X9. After every history of calls on a fresh store the liveness body
    reports counters with [0 <= connections <= 2 * sessions], [sessions]
    being the number of records in the registry; the second entry point
    reports the same and appends memory usage and a timestamp. *)
Theorem health_counters (ops : list Op) (uptime memory : JValue)
    (timestamp : string) :
  let st := run ops init in
  exists connections n : Z,
    health uptime st =
      [ ("status"%string, JStr "ok"); ("version"%string, JStr "1.0.0");
        ("uptime"%string, uptime);
        ("connections"%string, JNum connections);
        ("sessions"%string, JNum n) ] /\
    health_with_memory uptime memory timestamp st =
      health uptime st ++ [ ("memory"%string, memory);
                            ("timestamp"%string, JStr timestamp) ] /\
    n = Z.of_nat (JsMap.size (sessions st)) /\
    0 <= connections <= 2 * n.
Proof.
  intros st.
  exists (getActiveConnectionCount st), (getActiveSessionCount st).
  split; [reflexivity|]. split; [reflexivity|]. split; [reflexivity|].
  rewrite getActiveConnectionCount_eq. unfold getActiveSessionCount, size.
  pose proof (connections_le_twice (reachable_bounded ops)) as H.
  fold st in H. lia.
Qed.

Lemma delete_set_same (V : Type) k (v : V) m :
  JsMap.delete k (JsMap.set k v m) = JsMap.delete k m.
Proof.
  induction m as [|[k' w] m IH]; cbn.
  - now rewrite String.eqb_refl.
  - destruct (String.eqb k k') eqn:E; cbn; rewrite ?E, ?String.eqb_refl; auto.
    now rewrite IH.
Qed.

(** X10. Adding a new member to a live session and removing it again: if
    the session had one member the store is back exactly where it was; if
    it had none (nobody joined since its creation) the removal deletes the
    session, closing no socket. *)
Theorem add_then_remove (sid cid dn : string) (sock : Socket) (now j : Z)
    (s : Session) (st : State) :
  JsMap.get sid (sessions st) = Some s ->
  now <= expiresAt s ->
  JsMap.has cid (clients s) = false ->
  let st1 := snd (addClient sid cid dn sock now j st) in
  (JsMap.size (clients s) = 1%nat -> removeClient sid cid st1 = (tt, st)) /\
  (JsMap.size (clients s) = 0%nat ->
     sessions (snd (removeClient sid cid st1)) = JsMap.delete sid (sessions st) /\
     closeLog (snd (removeClient sid cid st1)) = closeLog st).
Proof.
  intros G Hlive Habs st1. subst st1. rewrite addClient_eq, G.
  destruct (Z.gtb_spec now (expiresAt s)) as [Hgt|_]; [lia|].
  assert (Hdel : JsMap.delete cid
                   (JsMap.set cid (mkClient cid dn sock j) (clients s))
                 = clients s).
  { rewrite (@set_absent_app _ cid (mkClient cid dn sock j) (clients s) Habs).
    now apply delete_last_absent. }
  split; intros Hsz; rewrite Hsz; cbn [Nat.leb snd];
    rewrite removeClient_eq; cbn [joined sessions clientId];
    rewrite get_set_same; cbn [with_clients clients]; rewrite Hdel, Hsz;
    cbn [Nat.eqb snd].
  - f_equal. destruct s as [i t c e cl].
    unfold parted, left_by, joined, with_clients.
    cbn in *. rewrite Hdel, set_set_same, (set_same_noop _ _ G).
    apply state_eta.
  - destruct s as [i t c e cl].
    unfold deleted, parted, left_by, joined, with_clients.
    cbn in *. rewrite !delete_set_same, ?Hdel.
    destruct cl; [|discriminate]. cbn. now rewrite app_nil_r.
Qed.

(** X11. [removeClient] on an unknown session does nothing; removing an id
    that is not a member of a session that has members does nothing either;
    on a session without members (created, never joined) any
    [removeClient] deletes the session. *)
Theorem removeClient_edges (sid cid : string) (st : State) :
  (JsMap.get sid (sessions st) = None -> removeClient sid cid st = (tt, st)) /\
  (forall s, JsMap.get sid (sessions st) = Some s ->
     JsMap.has cid (clients s) = false ->
     JsMap.size (clients s) <> 0%nat ->
     removeClient sid cid st = (tt, st)) /\
  (forall s, JsMap.get sid (sessions st) = Some s ->
     JsMap.size (clients s) = 0%nat ->
     JsMap.get sid (sessions (snd (removeClient sid cid st))) = None /\
     closeLog (snd (removeClient sid cid st)) = closeLog st).
Proof.
  rewrite removeClient_eq. split; [|split].
  - now intros ->.
  - intros s G Habs Hnz. rewrite G.
    rewrite (delete_absent _ _ (has_false_get _ _ Habs)).
    apply Nat.eqb_neq in Hnz. rewrite Hnz. f_equal.
    unfold parted, left_by.
    rewrite (delete_absent _ _ (has_false_get _ _ Habs)).
    rewrite with_clients_same, (set_same_noop _ _ G). apply state_eta.
  - intros s G Hz. rewrite G. cbn [snd].
    pose proof (size_0_nil _ Hz) as Hnil. rewrite Hnil. cbn.
    rewrite get_delete_same, Hnil. cbn. rewrite app_nil_r. auto.
Qed.

End CountersAndRoundTrips.

(** ** The WebSocket handler: what every event keeps *)

Section HandlerInvariants.
Import JsMap JsMapFacts.
Local Open Scope Z_scope.

Variable P : Type.
Variable prop : string -> P -> option string.

Lemma steps_hret (A : Type) (a : A) : steps_only (hret (P := P) a).
Proof. intros h. constructor. Qed.

Lemma steps_throw (A : Type) : steps_only (@throw P A).
Proof. intros h. constructor. Qed.

Lemma steps_hbind (A B : Type) (c : H P A) (k : A -> H P B) :
  steps_only c -> (forall a, steps_only (k a)) -> steps_only (hbind c k).
Proof.
  intros Hc Hk h. unfold hbind. specialize (Hc h).
  destruct (c h) as [[a|] h1]; cbn [snd] in *; [|exact Hc].
  eapply reg_steps_trans; [exact Hc | apply Hk].
Qed.

Lemma steps_try_catch (body handler : H P unit) :
  steps_only body -> steps_only handler -> steps_only (try_catch body handler).
Proof.
  intros Hb Hh h. unfold try_catch. specialize (Hb h).
  destruct (body h) as [[u|] h1]; cbn [snd] in *; [exact Hb|].
  eapply reg_steps_trans; [exact Hb | apply Hh].
Qed.

Lemma steps_send sock msg : steps_only (send (P := P) sock msg).
Proof. intros h. constructor. Qed.

Lemma steps_bindings_get sock : steps_only (clientSessions_get (P := P) sock).
Proof. intros h. constructor. Qed.

Lemma steps_bindings_set sock sid cid :
  steps_only (clientSessions_set (P := P) sock sid cid).
Proof. intros h. constructor. Qed.

Lemma steps_bindings_delete sock :
  steps_only (clientSessions_delete (P := P) sock).
Proof. intros h. constructor. Qed.

Lemma steps_lift (A : Type) (c : M A) :
  (forall st, reg_steps (sessions st) (sessions (snd (c st)))) ->
  steps_only (lift (P := P) c).
Proof.
  intros Hc h. unfold lift. specialize (Hc (store h)).
  destruct (c (store h)) as [a st1]. exact Hc.
Qed.

Lemma op_steps (A : Type) (c : M A) (op : Op) :
  (forall st, snd (exec op st) = snd (c st)) ->
  forall st, reg_steps (sessions st) (sessions (snd (c st))).
Proof. intros E st. rewrite <- E. apply exec_steps. Qed.

Lemma discard_snd (A : Type) (c : M A) st : snd (discard c st) = snd (c st).
Proof. unfold discard, bind. now destruct (c st). Qed.

Lemma steps_createSession sid tok now :
  steps_only (lift (P := P) (createSession sid tok now)).
Proof.
  apply steps_lift, (@op_steps _ _ (OpCreateSession sid tok now)).
  intros st. apply discard_snd.
Qed.

Lemma steps_getSession sid now :
  steps_only (lift (P := P) (getSession sid now)).
Proof.
  apply steps_lift, (@op_steps _ _ (OpGetSession sid now)).
  intros st. apply discard_snd.
Qed.

Lemma steps_validateToken sid tok now :
  steps_only (lift (P := P) (validateToken sid tok now)).
Proof.
  apply steps_lift, (@op_steps _ _ (OpValidateToken sid tok now)).
  intros st. apply discard_snd.
Qed.

Lemma steps_addClient sid cid dn sock now j :
  steps_only (lift (P := P) (addClient sid cid dn sock now j)).
Proof.
  apply steps_lift, (@op_steps _ _ (OpAddClient sid cid dn sock now j)).
  intros st. apply discard_snd.
Qed.

Lemma steps_getClient sid cid now :
  steps_only (lift (P := P) (getClient sid cid now)).
Proof.
  apply steps_lift, (@op_steps _ _ (OpGetClient sid cid now)).
  intros st. apply discard_snd.
Qed.

Lemma steps_getOtherClient sid cid now :
  steps_only (lift (P := P) (getOtherClient sid cid now)).
Proof.
  apply steps_lift, (@op_steps _ _ (OpGetOtherClient sid cid now)).
  intros st. apply discard_snd.
Qed.

Lemma steps_removeClient sid cid :
  steps_only (lift (P := P) (removeClient sid cid)).
Proof.
  apply steps_lift, (@op_steps _ _ (OpRemoveClient sid cid)).
  intros st. reflexivity.
Qed.

Create HintDb handler_steps.
Hint Resolve steps_hret steps_throw steps_send steps_bindings_get
  steps_bindings_set steps_bindings_delete steps_createSession
  steps_getSession steps_validateToken steps_addClient steps_getClient
  steps_getOtherClient steps_removeClient : handler_steps.

(** Breaks a handler body down to its primitive calls. *)
Ltac handler_cases lemma_bind lemma_catch db :=
  repeat first
    [ apply lemma_bind; [|intros ?]
    | apply lemma_catch
    | match goal with
      | |- context [match ?x with _ => _ end] => destruct x
      | |- context [if ?b then _ else _] => destruct b
      end
    | solve [auto with db] ].

Lemma steps_handleMessage clk sock data :
  steps_only (handleMessage prop clk sock data).
Proof.
  unfold handleMessage, dispatch, handleCreateSession, handleJoinSession,
    handleRelay, handleSessionClose, sendError.
  handler_cases steps_hbind steps_try_catch handler_steps.
Qed.

Lemma steps_handleDisconnect clk sock :
  steps_only (handleDisconnect (P := P) clk sock).
Proof.
  unfold handleDisconnect.
  handler_cases steps_hbind steps_try_catch handler_steps.
Qed.

Lemma run_events_steps evs : forall h,
  reg_steps (sessions (store h)) (sessions (store (run_events prop evs h))).
Proof.
  induction evs as [|[clk ev] evs IH]; intros h; cbn [run_events fold_left].
  - constructor.
  - fold (run_events prop evs (handle prop clk ev h)).
    eapply reg_steps_trans; [|apply IH].
    destruct ev; cbn [handle fst snd].
    + apply steps_handleMessage.
    + apply steps_handleDisconnect.
Qed.

(** X24. Whatever frames arrive and whatever sockets close, in any order
    and with any clock readings, the store behind the handler keeps every
    session at two members at most and keeps the ids of sessions and of
    members pairwise distinct. *)
Theorem handler_keeps_registry_bounded (evs : list (Clock * Event P)) :
  let h := run_events prop evs (handler_init P) in
  members_bounded (store h) /\ store_wf (store h) /\
  (forall sid s, JsMap.get sid (sessions (store h)) = Some s ->
     (JsMap.size (clients s) <= 2)%nat).
Proof.
  intros h.
  assert (Hb : members_bounded (store h)).
  { eapply (@invariant_steps bounded_registry bounded_step);
      [apply bounded_init | apply (run_events_steps evs (handler_init P))]. }
  split; [exact Hb|]. split.
  - eapply (@invariant_steps wf_registry wf_step);
      [apply wf_init | apply (run_events_steps evs (handler_init P))].
  - intros sid s G. exact (get_Forall _ Hb G).
Qed.

End HandlerInvariants.

(** ** The WebSocket handler: where messages go *)

Section HandlerRouting.
Import JsMap JsMapFacts.
Local Open Scope Z_scope.

Variable P : Type.
Variable prop : string -> P -> option string.

Lemma emits_hret Q (A : Type) (a : A) : emits Q (hret (P := P) a).
Proof. intros h. exists []. cbn. now rewrite app_nil_r. Qed.

Lemma emits_throw Q (A : Type) : emits Q (@throw P A).
Proof. intros h. exists []. cbn. now rewrite app_nil_r. Qed.

Lemma emits_hbind Q (A B : Type) (c : H P A) (k : A -> H P B) :
  emits Q c -> (forall a, emits Q (k a)) -> emits Q (hbind c k).
Proof.
  intros Hc Hk h. unfold hbind. destruct (Hc h) as (n1 & E1 & F1).
  destruct (c h) as [[a|] h1]; cbn [snd] in *.
  - destruct (Hk a h1) as (n2 & E2 & F2). exists (n1 ++ n2).
    rewrite E2, E1, app_assoc. split; [reflexivity|]. now apply Forall_app.
  - now exists n1.
Qed.

Lemma emits_try_catch Q (body handler : H P unit) :
  emits Q body -> emits Q handler -> emits Q (try_catch body handler).
Proof.
  intros Hb Hh h. unfold try_catch. destruct (Hb h) as (n1 & E1 & F1).
  destruct (body h) as [[u|] h1]; cbn [snd] in *.
  - now exists n1.
  - destruct (Hh h1) as (n2 & E2 & F2). exists (n1 ++ n2).
    rewrite E2, E1, app_assoc. split; [reflexivity|]. now apply Forall_app.
Qed.

Lemma emits_send (Q : Socket * Outgoing P -> Prop) sock msg :
  Q (sock, msg) -> emits Q (send sock msg).
Proof. intros Hq h. exists [(sock, msg)]. cbn. split; [reflexivity|]. auto. Qed.

Lemma emits_lift Q (A : Type) (c : M A) : emits Q (lift (P := P) c).
Proof.
  intros h. exists []. unfold lift. destruct (c (store h)). cbn.
  now rewrite app_nil_r.
Qed.

Lemma emits_bindings_get Q sock : emits Q (clientSessions_get (P := P) sock).
Proof. intros h. exists []. cbn. now rewrite app_nil_r. Qed.

Lemma emits_bindings_set Q sock sid cid :
  emits Q (clientSessions_set (P := P) sock sid cid).
Proof. intros h. exists []. cbn. now rewrite app_nil_r. Qed.

Lemma emits_bindings_delete Q sock :
  emits Q (clientSessions_delete (P := P) sock).
Proof. intros h. exists []. cbn. now rewrite app_nil_r. Qed.

Create HintDb handler_emits.
Hint Resolve emits_hret emits_throw emits_lift emits_bindings_get
  emits_bindings_set emits_bindings_delete : handler_emits.

Ltac emits_cases :=
  repeat first
    [ apply emits_hbind; [|intros ?]
    | apply emits_try_catch
    | apply emits_send; cbn; solve [auto]
    | match goal with
      | |- context [match ?x with _ => _ end] => destruct x
      | |- context [if ?b then _ else _] => destruct b
      end
    | solve [auto with handler_emits] ].

(** X25. While a frame from a socket is handled, every error, every
    [session_created] (the one message that carries the token) and every
    [session_joined] that is sent goes to that socket and to no other; a
    closing socket causes no message but [peer_disconnected]. *)
Theorem replies_reach_only_the_sender (clk : Clock) (sock : Socket) :
  (forall data h, exists new,
     outbox (snd (handleMessage prop clk sock data h)) = outbox h ++ new /\
     Forall (routed_from sock) new) /\
  (forall h, exists new,
     outbox (snd (handleDisconnect clk sock h)) = outbox h ++ new /\
     Forall (@disconnect_notice P) new).
Proof.
  split.
  - intros data.
    change (emits (routed_from sock) (handleMessage prop clk sock data)).
    unfold handleMessage, dispatch, handleCreateSession, handleJoinSession,
      handleRelay, handleSessionClose, sendError.
    emits_cases.
  - change (emits (@disconnect_notice P) (handleDisconnect (P := P) clk sock)).
    unfold handleDisconnect. emits_cases.
Qed.

End HandlerRouting.

(** ** The WebSocket handler: frames, creation and joining *)

Section HandlerFrames.
Import JsMap JsMapFacts.
Local Open Scope Z_scope.
Local Open Scope string_scope.

Variable P : Type.
Variable prop : string -> P -> option string.

Lemma lift_eq (A : Type) (c : M A) (h : Handler P) :
  lift c h = (Some (fst (c (store h))), with_store h (snd (c (store h)))).
Proof. unfold lift. now destruct (c (store h)). Qed.

Lemma createSession_eq sid tok now st :
  createSession sid tok now st =
  (mkSession sid tok now (now + TTL) [],
   {| sessions := JsMap.set sid (mkSession sid tok now (now + TTL) [])
                            (sessions st);
      totalSessionsCreated := totalSessionsCreated st + 1;
      closeLog := closeLog st; consoleLog := consoleLog st |}).
Proof. reflexivity. Qed.

Lemma with_store_same (h : Handler P) : with_store h (store h) = h.
Proof. now destruct h. Qed.

Lemma truthy_Some x s : x = Some s -> s <> EmptyString -> truthy x = Some s.
Proof.
  intros -> Hne. cbn. apply String.eqb_neq in Hne. now rewrite Hne.
Qed.

(** X12. A parsed message whose timestamp lies more than 300,000 ms from
    the server clock, before or after, is answered with one
    INVALID_TIMESTAMP error to its sender and has no other effect, whatever
    its type; a message exactly 300,000 ms away, or with no timestamp field
    at all, passes the check and is dispatched on its type. *)
Theorem timestamp_window (clk : Clock) (sock : Socket)
    (message : SignalingMessage P) (h : Handler P) :
  (forall ts, msg_timestamp message = Some ts ->
     300000 < Z.abs (t_now clk - ts) ->
     handleMessage prop clk sock (Parsed message) h =
     (Some tt, sent sock (OutError (t_error clk) "INVALID_TIMESTAMP"
                                   "Message timestamp too old") h)) /\
  ((msg_timestamp message = None \/
    exists ts, msg_timestamp message = Some ts /\
               Z.abs (t_now clk - ts) <= 300000) ->
     handleMessage prop clk sock (Parsed message) h =
     try_catch (dispatch prop clk sock message)
               (sendError clk sock "INVALID_MESSAGE" "Failed to parse message")
               h).
Proof.
  unfold handleMessage, stale. split.
  - intros ts -> Hfar. apply Z.ltb_lt in Hfar. now rewrite Hfar.
  - intros [->|(ts & -> & Hnear)]; [reflexivity|].
    destruct (Z.ltb_spec 300000 (Z.abs (t_now clk - ts))); [lia|reflexivity].
Qed.

Lemma known_type_tests t :
  ~ In t known_types ->
  String.eqb t "create_session" = false /\
  String.eqb t "join_session" = false /\
  String.eqb t "offer" = false /\ String.eqb t "answer" = false /\
  String.eqb t "ice_candidate" = false /\
  String.eqb t "session_close" = false.
Proof.
  intros Hn. repeat split; apply String.eqb_neq; intros ->; apply Hn;
    cbn; tauto.
Qed.

(** X13. A frame that does not parse, and a [create_session] or
    [join_session] whose payload is absent, get one INVALID_MESSAGE error;
    a message of a type the handler does not know, or without a type, gets
    one UNKNOWN_MESSAGE_TYPE error naming the type. In each case the error
    goes to the sender, and store and bindings stay as they were. *)
Theorem unreadable_frames (clk : Clock) (sock : Socket) (h : Handler P) :
  handleMessage prop clk sock (@Unparsable P) h =
    (Some tt, sent sock (OutError (t_error clk) "INVALID_MESSAGE"
                                  "Failed to parse message") h) /\
  (forall message t,
     stale clk message = false ->
     msg_type message = Some t ->
     (t = "create_session" \/ t = "join_session") ->
     msg_payload message = None ->
     handleMessage prop clk sock (Parsed message) h =
       (Some tt, sent sock (OutError (t_error clk) "INVALID_MESSAGE"
                                     "Failed to parse message") h)) /\
  (forall message t,
     stale clk message = false ->
     msg_type message = Some t ->
     ~ In t known_types ->
     handleMessage prop clk sock (Parsed message) h =
       (Some tt, sent sock (OutError (t_error clk) "UNKNOWN_MESSAGE_TYPE"
                                     ("Unknown message type: " ++ t)) h)) /\
  (forall message,
     stale clk message = false ->
     msg_type message = None ->
     handleMessage prop clk sock (Parsed message) h =
       (Some tt, sent sock (OutError (t_error clk) "UNKNOWN_MESSAGE_TYPE"
                                     "Unknown message type: undefined") h)).
Proof.
  split; [reflexivity|]. split; [|split].
  - intros message t Hs Ht [->| ->] Hp;
      unfold handleMessage, try_catch, dispatch; rewrite Hs, Ht; cbn;
      unfold handleCreateSession, handleJoinSession; now rewrite Hp.
  - intros message t Hs Ht Hn.
    destruct (known_type_tests Hn) as (E1 & E2 & E3 & E4 & E5 & E6).
    unfold handleMessage, try_catch, dispatch.
    now rewrite Hs, Ht, E1, E2, E3, E4, E5, E6.
  - intros message Hs Ht.
    unfold handleMessage, try_catch, dispatch. now rewrite Hs, Ht.
Qed.

(** X14. A [create_session] with a client id and a display name creates a
    session under the drawn id with the drawn token, expiring [TTL] after
    its creation, with the sender as its only member; binds the socket to
    it; and answers the sender, and nobody else, with [session_created]
    carrying id, token and expiry. Other sessions are not touched. *)
Theorem create_session_handled (clk : Clock) (sock : Socket)
    (message : SignalingMessage P) (payload : P) (cid dn : string)
    (h : Handler P) :
  stale clk message = false ->
  msg_type message = Some "create_session" ->
  msg_payload message = Some payload ->
  prop "clientId" payload = Some cid -> cid <> EmptyString ->
  prop "displayName" payload = Some dn -> dn <> EmptyString ->
  t_check1 clk <= t_create clk + TTL ->
  let session :=
    mkSession (new_id clk) (new_token clk) (t_create clk)
              (t_create clk + TTL)
              [(cid, mkClient cid dn sock (t_joined clk))] in
  handleMessage prop clk sock (Parsed message) h =
  (Some tt,
   {| store :=
        {| sessions := JsMap.set (new_id clk) session (sessions (store h));
           totalSessionsCreated := totalSessionsCreated (store h) + 1;
           closeLog := closeLog (store h);
           consoleLog := consoleLog (store h) |};
      clientSessions :=
        SockMap.set sock (new_id clk, cid) (clientSessions h);
      outbox :=
        (outbox h ++
         [(sock, OutSessionCreated (t_session_created clk) (new_id clk)
                                   (new_token clk) (t_create clk + TTL))])%list
   |}).
Proof.
  intros Hs Ht Hp Hc Hcne Hd Hdne Hlive session.
  unfold handleMessage, try_catch, dispatch. rewrite Hs, Ht. cbn [String.eqb Ascii.eqb Bool.eqb].
  unfold handleCreateSession. rewrite Hp.
  rewrite (truthy_Some Hc Hcne), (truthy_Some Hd Hdne).
  unfold hbind. rewrite lift_eq, createSession_eq. cbn [fst snd sessionId].
  rewrite lift_eq, addClient_eq. cbn [with_store store sessions].
  rewrite get_set_same. cbn [expiresAt clients].
  destruct (Z.gtb_spec (t_check1 clk) (t_create clk + TTL)) as [Hgt|_]; [lia|].
  cbn. unfold joined, with_clients. cbn. now rewrite set_set_same.
Qed.

End HandlerFrames.

(** ** The WebSocket handler: joining and relaying *)

Section HandlerJoin.
Import JsMap JsMapFacts.
Local Open Scope Z_scope.
Local Open Scope string_scope.

Variable P : Type.
Variable prop : string -> P -> option string.

Lemma getOtherClient_live_eq sid cid now s st :
  JsMap.get sid (sessions st) = Some s -> now <= expiresAt s ->
  getOtherClient sid cid now st =
  (option_map snd (find (fun e => negb (String.eqb (fst e) cid)) (clients s)),
   st).
Proof.
  intros G Hl. unfold getOtherClient, bind.
  now rewrite (getSession_live sid st G Hl).
Qed.

Lemma getClient_live_eq sid cid now s st :
  JsMap.get sid (sessions st) = Some s -> now <= expiresAt s ->
  getClient sid cid now st = (JsMap.get cid (clients s), st).
Proof.
  intros G Hl. unfold getClient, bind.
  now rewrite (getSession_live sid st G Hl).
Qed.

Lemma handleMessage_join clk sock message sid tok cid dn h :
  join_request prop clk message sid tok cid dn ->
  handleMessage prop clk sock (Parsed message) h =
  try_catch
    (hbind (lift (validateToken sid tok (t_check1 clk))) (fun valid =>
       if negb valid
       then sendError clk sock "INVALID_TOKEN"
                      "Session token is invalid or expired"
       else
         hbind (lift (addClient sid cid dn sock (t_check2 clk) (t_joined clk)))
           (fun added =>
              if negb added
              then sendError clk sock "SESSION_FULL"
                             "Session already has maximum clients"
              else
                hbind (clientSessions_set sock sid cid) (fun _ =>
                hbind (lift (getOtherClient sid cid (t_check3 clk))) (fun peer =>
                hbind (send sock
                         (OutSessionJoined sid (t_session_joined clk)
                            (option_map clientId peer)
                            (option_map displayName peer))) (fun _ =>
                match peer with
                | Some p =>
                    send (socket p)
                         (OutPeerJoined sid (t_peer_joined clk) cid dn)
                | None => hret tt
                end))))))
    (sendError clk sock "INVALID_MESSAGE" "Failed to parse message") h.
Proof.
  intros (Hs & Ht & Hsid & payload & Hp & Htok & Hcid & Hdn).
  unfold handleMessage, dispatch. rewrite Hs, Ht. cbn [String.eqb Ascii.eqb Bool.eqb].
  unfold handleJoinSession. now rewrite Hp, Hsid, Htok, Hcid, Hdn.
Qed.

(** X15. A [join_session] for a session that is unknown, or that is
    live but has another token than the one presented, is answered with
    one INVALID_TOKEN error to the sender; membership, bindings and every
    other socket are left alone. *)
Theorem join_with_bad_token (clk : Clock) (sock : Socket)
    (message : SignalingMessage P) (sid tok cid dn : string) (h : Handler P) :
  join_request prop clk message sid tok cid dn ->
  (JsMap.get sid (sessions (store h)) = None \/
   exists s, JsMap.get sid (sessions (store h)) = Some s /\
             t_check1 clk <= expiresAt s /\ token s <> tok) ->
  handleMessage prop clk sock (Parsed message) h =
  (Some tt, sent sock (OutError (t_error clk) "INVALID_TOKEN"
                                "Session token is invalid or expired") h).
Proof.
  intros Hreq Hbad. rewrite (handleMessage_join sock h Hreq).
  unfold try_catch, hbind. rewrite lift_eq, validateToken_eq.
  destruct Hbad as [G|(s & G & Hl & Hne)]; rewrite G.
  - cbn [fst snd negb]. now rewrite with_store_same.
  - destruct (Z.gtb_spec (t_check1 clk) (expiresAt s)) as [Hgt|_]; [lia|].
    apply String.eqb_neq in Hne. rewrite Hne. cbn [fst snd negb].
    now rewrite with_store_same.
Qed.

(** X16. A [join_session] with the right token for a live session that
    already has two members is answered with one SESSION_FULL error to the
    sender; membership, bindings and every other socket are left alone. *)
Theorem join_full_session (clk : Clock) (sock : Socket)
    (message : SignalingMessage P) (sid tok cid dn : string) (s : Session)
    (h : Handler P) :
  join_request prop clk message sid tok cid dn ->
  JsMap.get sid (sessions (store h)) = Some s ->
  token s = tok ->
  t_check1 clk <= expiresAt s -> t_check2 clk <= expiresAt s ->
  (2 <= JsMap.size (clients s))%nat ->
  handleMessage prop clk sock (Parsed message) h =
  (Some tt, sent sock (OutError (t_error clk) "SESSION_FULL"
                                "Session already has maximum clients") h).
Proof.
  intros Hreq G Htok Hl1 Hl2 Hfull. rewrite (handleMessage_join sock h Hreq).
  unfold try_catch, hbind. rewrite lift_eq, validateToken_eq, G.
  destruct (Z.gtb_spec (t_check1 clk) (expiresAt s)) as [Hgt|_]; [lia|].
  apply String.eqb_eq in Htok. rewrite Htok. cbn [fst snd negb].
  rewrite with_store_same, lift_eq, addClient_eq, G.
  destruct (Z.gtb_spec (t_check2 clk) (expiresAt s)) as [Hgt|_]; [lia|].
  apply Nat.leb_le in Hfull. rewrite Hfull. cbn [fst snd negb].
  now rewrite with_store_same.
Qed.

(** X17. A [join_session] with the right token for a live session whose
    single member has another client id adds the sender as second member,
    binds its socket, answers it with [session_joined] naming the first
    member, and then tells the first member, on its own socket,
    [peer_joined] with the joiner's id and name. *)
Theorem join_pairs_the_peers (clk : Clock) (sock : Socket)
    (message : SignalingMessage P) (sid tok cid dn pk : string) (s : Session)
    (peer : ClientConnection) (h : Handler P) :
  join_request prop clk message sid tok cid dn ->
  JsMap.get sid (sessions (store h)) = Some s ->
  token s = tok ->
  clients s = [(pk, peer)] -> pk <> cid ->
  t_check1 clk <= expiresAt s -> t_check2 clk <= expiresAt s ->
  t_check3 clk <= expiresAt s ->
  handleMessage prop clk sock (Parsed message) h =
  (Some tt,
   {| store :=
        {| sessions :=
             JsMap.set sid
               (with_clients s
                  [(pk, peer); (cid, mkClient cid dn sock (t_joined clk))])
               (sessions (store h));
           totalSessionsCreated := totalSessionsCreated (store h);
           closeLog := closeLog (store h);
           consoleLog := consoleLog (store h) |};
      clientSessions := SockMap.set sock (sid, cid) (clientSessions h);
      outbox :=
        (outbox h ++
         [(sock, OutSessionJoined sid (t_session_joined clk)
                   (Some (clientId peer)) (Some (displayName peer)));
          (socket peer, OutPeerJoined sid (t_peer_joined clk) cid dn)])%list
   |}).
Proof.
  intros Hreq G Htok Hcl Hne Hl1 Hl2 Hl3.
  rewrite (handleMessage_join sock h Hreq).
  unfold try_catch, hbind. rewrite lift_eq, validateToken_eq, G.
  destruct (Z.gtb_spec (t_check1 clk) (expiresAt s)) as [Hgt|_]; [lia|].
  apply String.eqb_eq in Htok. rewrite Htok. cbn [fst snd negb].
  rewrite with_store_same, lift_eq, addClient_eq, G.
  destruct (Z.gtb_spec (t_check2 clk) (expiresAt s)) as [Hgt|_]; [lia|].
  rewrite Hcl. cbn [JsMap.size length Nat.leb fst snd negb].
  unfold clientSessions_set at 1. cbn [store with_store clientSessions outbox].
  rewrite lift_eq. cbn [store].
  assert (Hpk : String.eqb cid pk = false)
    by (apply String.eqb_neq; congruence).
  assert (Hpk' : String.eqb pk cid = false) by now apply String.eqb_neq.
  erewrite getOtherClient_live_eq;
    [| unfold joined; cbn [sessions]; apply get_set_same
     | cbn [with_clients expiresAt]; exact Hl3 ].
  unfold joined, with_clients. rewrite Hcl.
  cbn. rewrite Hpk. cbn. rewrite Hpk'. cbn. rewrite <- app_assoc. reflexivity.
Qed.

End HandlerJoin.

(** ** The WebSocket handler: relays, leaving and disconnecting *)

Section HandlerRelayClose.
Import JsMap JsMapFacts.
Local Open Scope Z_scope.
Local Open Scope string_scope.

Variable P : Type.
Variable prop : string -> P -> option string.

(** X18. A [join_session] that presents the client id of the session's
    only member takes that member's place: the member record is
    overwritten with the joiner's name and socket, the joiner is answered
    [session_joined] without a peer, and the socket of the replaced member
    is told nothing. *)
Theorem join_with_member_id (clk : Clock) (sock : Socket)
    (message : SignalingMessage P) (sid tok cid dn : string) (s : Session)
    (old : ClientConnection) (h : Handler P) :
  join_request prop clk message sid tok cid dn ->
  JsMap.get sid (sessions (store h)) = Some s ->
  token s = tok ->
  clients s = [(cid, old)] ->
  t_check1 clk <= expiresAt s -> t_check2 clk <= expiresAt s ->
  t_check3 clk <= expiresAt s ->
  handleMessage prop clk sock (Parsed message) h =
  (Some tt,
   {| store :=
        {| sessions :=
             JsMap.set sid
               (with_clients s [(cid, mkClient cid dn sock (t_joined clk))])
               (sessions (store h));
           totalSessionsCreated := totalSessionsCreated (store h);
           closeLog := closeLog (store h);
           consoleLog := consoleLog (store h) |};
      clientSessions := SockMap.set sock (sid, cid) (clientSessions h);
      outbox :=
        (outbox h ++
         [(sock, OutSessionJoined sid (t_session_joined clk) None None)])%list
   |}).
Proof.
  intros Hreq G Htok Hcl Hl1 Hl2 Hl3.
  rewrite (handleMessage_join sock h Hreq).
  unfold try_catch, hbind. rewrite lift_eq, validateToken_eq, G.
  destruct (Z.gtb_spec (t_check1 clk) (expiresAt s)) as [Hgt|_]; [lia|].
  apply String.eqb_eq in Htok. rewrite Htok. cbn [fst snd negb].
  rewrite with_store_same, lift_eq, addClient_eq, G.
  destruct (Z.gtb_spec (t_check2 clk) (expiresAt s)) as [Hgt|_]; [lia|].
  rewrite Hcl. cbn [JsMap.size length Nat.leb fst snd negb].
  unfold clientSessions_set at 1. cbn [store with_store clientSessions outbox].
  rewrite lift_eq. cbn [store].
  erewrite getOtherClient_live_eq;
    [| unfold joined; cbn [sessions]; apply get_set_same
     | cbn [with_clients expiresAt]; exact Hl3 ].
  unfold joined, with_clients. rewrite Hcl.
  cbn. rewrite String.eqb_refl. cbn. rewrite String.eqb_refl. cbn.
  reflexivity.
Qed.

Lemma handleMessage_relay clk sock message sid from to h :
  relay_request clk message sid from to ->
  handleMessage prop clk sock (Parsed message) h =
  try_catch
    (hbind (lift (getSession sid (t_check1 clk))) (fun session =>
       match session with
       | Some s =>
           if JsMap.has from (clients s)
           then
             hbind (lift (getClient sid to (t_check2 clk))) (fun recipient =>
               match recipient with
               | Some r => send (socket r) (OutRelay message)
               | None =>
                   sendError clk sock "PEER_NOT_FOUND"
                             "Recipient not found in session"
               end)
           else sendError clk sock "UNAUTHORIZED" "Sender not in session"
       | None => sendError clk sock "UNAUTHORIZED" "Sender not in session"
       end))
    (sendError clk sock "INVALID_MESSAGE" "Failed to parse message") h.
Proof.
  intros (Hs & Ht & Hsid & Hfrom & Hto).
  unfold handleMessage, dispatch. rewrite Hs.
  destruct Ht as [-> | [-> | ->]]; cbn [String.eqb Ascii.eqb Bool.eqb orb];
    unfold handleRelay; now rewrite Hsid, Hfrom, Hto.
Qed.

(** X19. An [offer], [answer] or [ice_candidate] for a live session whose
    [from] and [to] both name members is passed, the very message object
    that was received, to the socket of the member [to] and to no other;
    store and bindings stay as they were. Which socket sent the frame
    plays no part. *)
Theorem relay_delivered (clk : Clock) (sock : Socket)
    (message : SignalingMessage P) (sid from to : string) (s : Session)
    (r : ClientConnection) (h : Handler P) :
  relay_request clk message sid from to ->
  JsMap.get sid (sessions (store h)) = Some s ->
  t_check1 clk <= expiresAt s -> t_check2 clk <= expiresAt s ->
  JsMap.has from (clients s) = true ->
  JsMap.get to (clients s) = Some r ->
  handleMessage prop clk sock (Parsed message) h =
  (Some tt, sent (socket r) (OutRelay message) h).
Proof.
  intros Hreq G Hl1 Hl2 Hfrom Hto.
  rewrite (handleMessage_relay sock h Hreq).
  unfold try_catch, hbind.
  rewrite lift_eq, (getSession_live sid (store h) G Hl1). cbn [fst snd].
  rewrite Hfrom, with_store_same, lift_eq, (@getClient_live_eq sid to (t_check2 clk) s (store h) G Hl2).
  cbn [fst snd]. now rewrite Hto, with_store_same.
Qed.

(** X20. A relay is refused with one error to its sender, and nothing is
    sent to any member: UNAUTHORIZED when the session is unknown or [from]
    names no member of it, PEER_NOT_FOUND when [from] is a member but [to]
    is not. Store and bindings stay as they were. *)
Theorem relay_refused (clk : Clock) (sock : Socket)
    (message : SignalingMessage P) (sid from to : string) (h : Handler P) :
  relay_request clk message sid from to ->
  ((JsMap.get sid (sessions (store h)) = None \/
    exists s, JsMap.get sid (sessions (store h)) = Some s /\
              t_check1 clk <= expiresAt s /\
              JsMap.has from (clients s) = false) ->
   handleMessage prop clk sock (Parsed message) h =
   (Some tt, sent sock (OutError (t_error clk) "UNAUTHORIZED"
                                 "Sender not in session") h)) /\
  (forall s, JsMap.get sid (sessions (store h)) = Some s ->
     t_check1 clk <= expiresAt s -> t_check2 clk <= expiresAt s ->
     JsMap.has from (clients s) = true ->
     JsMap.get to (clients s) = None ->
     handleMessage prop clk sock (Parsed message) h =
     (Some tt, sent sock (OutError (t_error clk) "PEER_NOT_FOUND"
                                   "Recipient not found in session") h)).
Proof.
  intros Hreq. rewrite (handleMessage_relay sock h Hreq).
  unfold try_catch, hbind. split.
  - intros [G|(s & G & Hl1 & Hfrom)].
    + rewrite lift_eq, (getSession_missing sid _ (store h) G). cbn [fst snd].
      now rewrite with_store_same.
    + rewrite lift_eq, (getSession_live sid (store h) G Hl1). cbn [fst snd].
      now rewrite Hfrom, with_store_same.
  - intros s G Hl1 Hl2 Hfrom Hto.
    rewrite lift_eq, (getSession_live sid (store h) G Hl1). cbn [fst snd].
    rewrite Hfrom, with_store_same, lift_eq, (@getClient_live_eq sid to (t_check2 clk) s (store h) G Hl2).
    cbn [fst snd]. now rewrite Hto, with_store_same.
Qed.

End HandlerRelayClose.

(** ** The WebSocket handler: leaving and disconnecting *)

Section HandlerLeave.
Import JsMap JsMapFacts.
Local Open Scope Z_scope.
Local Open Scope string_scope.

Variable P : Type.
Variable prop : string -> P -> option string.

Lemma sock_get_delete_same (V : Type) k (m : SockMap.t V) :
  SockMap.get k (SockMap.delete k m) = None.
Proof.
  induction m as [|[k' v] m IH]; cbn; auto.
  destruct (Nat.eqb k k') eqn:E; cbn; rewrite ?E; auto.
Qed.

Lemma peer_keeps_session_alive (l : JsMap.t ClientConnection) cid pk c :
  pk <> cid -> JsMap.get pk l = Some c ->
  (JsMap.size (JsMap.delete cid l) =? 0)%nat = false.
Proof.
  intros Hne Hg. rewrite <- (@get_delete_other _ cid pk l Hne) in Hg.
  destruct (JsMap.delete cid l); [discriminate | reflexivity].
Qed.

Lemma handleMessage_close clk sock message h :
  stale clk message = false ->
  msg_type message = Some "session_close" ->
  handleMessage prop clk sock (Parsed message) h =
  try_catch (handleSessionClose prop clk sock message)
            (sendError clk sock "INVALID_MESSAGE" "Failed to parse message") h.
Proof.
  intros Hs Ht. unfold handleMessage, dispatch. now rewrite Hs, Ht.
Qed.

(** The hypotheses shared by the theorems about a member that leaves a
    session in which it has a peer. *)
Section WithPeer.
Variables (clk : Clock) (sock : Socket) (sid cid pk : string) (s : Session)
  (peer : ClientConnection) (h : Handler P).
Hypothesis Hbound : SockMap.get sock (clientSessions h) = Some (sid, cid).
Hypothesis Hsession : JsMap.get sid (sessions (store h)) = Some s.
Hypothesis Hlive : t_check1 clk <= expiresAt s.
Hypothesis Hwf : JsMap.wf (clients s).
Hypothesis Hsize : (JsMap.size (clients s) <= 2)%nat.
Hypothesis Hmember : JsMap.has cid (clients s) = true.
Hypothesis Hother : pk <> cid.
Hypothesis Hpeer : JsMap.get pk (clients s) = Some peer.

Lemma peer_found :
  lift (getOtherClient sid cid (t_check1 clk)) h = (Some (Some peer), h).
Proof.
  rewrite lift_eq,
    (@getOtherClient_live_eq sid cid (t_check1 clk) s (store h) Hsession Hlive).
  rewrite (@find_other_member (clients s) cid pk peer Hwf Hsize Hmember
             Hother Hpeer).
  cbn [fst snd option_map]. now rewrite with_store_same.
Qed.

Lemma member_removed (h' : Handler P) :
  store h' = store h ->
  lift (removeClient sid cid) h' =
  (Some tt, with_store h' (parted sid cid s (store h))).
Proof.
  intros E. rewrite lift_eq, removeClient_eq, E, Hsession.
  now rewrite (@peer_keeps_session_alive (clients s) cid pk peer Hother Hpeer).
Qed.

Lemma close_with_peer (message : SignalingMessage P) (payload : P) :
  msg_payload message = Some payload ->
  handleSessionClose prop clk sock message h =
  (Some tt,
   {| store := parted sid cid s (store h);
      clientSessions := SockMap.delete sock (clientSessions h);
      outbox :=
        (outbox h ++
         [(socket peer,
           OutPeerLeft sid (t_peer_left clk) cid (reason_of prop payload))])%list
   |}).
Proof.
  intros Hp. unfold handleSessionClose, hbind at 1, clientSessions_get.
  rewrite Hbound. unfold hbind at 1. rewrite peer_found.
  unfold hbind at 1. rewrite Hp. unfold send at 1.
  unfold hbind. rewrite member_removed by reflexivity. reflexivity.
Qed.

Lemma close_without_payload (message : SignalingMessage P) :
  msg_payload message = None ->
  handleSessionClose prop clk sock message h = (None, h).
Proof.
  intros Hp. unfold handleSessionClose, hbind at 1, clientSessions_get.
  rewrite Hbound. unfold hbind at 1. rewrite peer_found.
  unfold hbind. now rewrite Hp.
Qed.

Lemma disconnect_with_peer :
  handleDisconnect clk sock h =
  (Some tt,
   {| store := parted sid cid s (store h);
      clientSessions := SockMap.delete sock (clientSessions h);
      outbox :=
        (outbox h ++
         [(socket peer,
           OutPeerDisconnected sid (t_peer_disconnected clk) cid)])%list
   |}).
Proof.
  unfold handleDisconnect, hbind at 1, clientSessions_get.
  rewrite Hbound. unfold hbind at 1. rewrite peer_found.
  unfold hbind at 1. unfold send at 1.
  unfold hbind. rewrite member_removed by reflexivity. reflexivity.
Qed.

End WithPeer.

(** X21. A [session_close] from a bound socket whose session is live and
    has a second member: the peer is told [peer_left] with the leaver's id
    and the given reason ("unknown" when none is given), the leaver is
    removed from the session, which stays registered with the peer alone,
    and the socket is unbound. No socket is closed by the server. *)
Theorem close_notifies_peer (clk : Clock) (sock : Socket)
    (message : SignalingMessage P) (payload : P) (sid cid pk : string)
    (s : Session) (peer : ClientConnection) (h : Handler P) :
  stale clk message = false ->
  msg_type message = Some "session_close" ->
  msg_payload message = Some payload ->
  SockMap.get sock (clientSessions h) = Some (sid, cid) ->
  JsMap.get sid (sessions (store h)) = Some s ->
  t_check1 clk <= expiresAt s ->
  JsMap.wf (clients s) -> (JsMap.size (clients s) <= 2)%nat ->
  JsMap.has cid (clients s) = true ->
  pk <> cid -> JsMap.get pk (clients s) = Some peer ->
  let h' := snd (handleMessage prop clk sock (Parsed message) h) in
  outbox h' =
    (outbox h ++
     [(socket peer,
       OutPeerLeft sid (t_peer_left clk) cid (reason_of prop payload))])%list /\
  JsMap.get sid (sessions (store h')) = Some (left_by cid s) /\
  JsMap.get cid (clients (left_by cid s)) = None /\
  JsMap.get pk (clients (left_by cid s)) = Some peer /\
  SockMap.get sock (clientSessions h') = None /\
  closeLog (store h') = closeLog (store h).
Proof.
  intros Hs Ht Hp Hb G Hl Hwf Hsz Hm Hne Hpk h'. subst h'.
  rewrite handleMessage_close by assumption. unfold try_catch.
  erewrite close_with_peer; try eassumption.
  cbn [snd outbox store clientSessions parted sessions closeLog].
  split; [reflexivity|]. split; [apply get_set_same|].
  cbn [left_by with_clients clients].
  split; [apply get_delete_same|].
  split; [now rewrite get_delete_other|].
  split; [apply sock_get_delete_same | reflexivity].
Qed.

(** X22. A [session_close] without a payload, from a member that has a
    peer, fails while the notice to the peer is built: the sender gets one
    INVALID_MESSAGE error, the peer is told nothing, the sender stays a
    member of the session and its socket stays bound. *)
Theorem close_without_payload_fails (clk : Clock) (sock : Socket)
    (message : SignalingMessage P) (sid cid pk : string)
    (s : Session) (peer : ClientConnection) (h : Handler P) :
  stale clk message = false ->
  msg_type message = Some "session_close" ->
  msg_payload message = None ->
  SockMap.get sock (clientSessions h) = Some (sid, cid) ->
  JsMap.get sid (sessions (store h)) = Some s ->
  t_check1 clk <= expiresAt s ->
  JsMap.wf (clients s) -> (JsMap.size (clients s) <= 2)%nat ->
  JsMap.has cid (clients s) = true ->
  pk <> cid -> JsMap.get pk (clients s) = Some peer ->
  handleMessage prop clk sock (Parsed message) h =
  (Some tt, sent sock (OutError (t_error clk) "INVALID_MESSAGE"
                                "Failed to parse message") h).
Proof.
  intros Hs Ht Hp Hb G Hl Hwf Hsz Hm Hne Hpk.
  rewrite handleMessage_close by assumption. unfold try_catch.
  erewrite close_without_payload; try eassumption. reflexivity.
Qed.

(** X26. When the socket of a member with a peer closes, the peer is told
    [peer_disconnected] with the id of the member, the member is removed,
    the session stays registered with the peer as its only member, and the
    socket is unbound. *)
Theorem disconnect_notifies_peer (clk : Clock) (sock : Socket)
    (sid cid pk : string) (s : Session) (peer : ClientConnection)
    (h : Handler P) :
  SockMap.get sock (clientSessions h) = Some (sid, cid) ->
  JsMap.get sid (sessions (store h)) = Some s ->
  t_check1 clk <= expiresAt s ->
  JsMap.wf (clients s) -> (JsMap.size (clients s) <= 2)%nat ->
  JsMap.has cid (clients s) = true ->
  pk <> cid -> JsMap.get pk (clients s) = Some peer ->
  let h' := handle prop clk (OnClose P sock) h in
  outbox h' =
    (outbox h ++
     [(socket peer,
       OutPeerDisconnected sid (t_peer_disconnected clk) cid)])%list /\
  JsMap.get sid (sessions (store h')) = Some (left_by cid s) /\
  JsMap.get cid (clients (left_by cid s)) = None /\
  JsMap.get pk (clients (left_by cid s)) = Some peer /\
  SockMap.get sock (clientSessions h') = None /\
  closeLog (store h') = closeLog (store h).
Proof.
  intros Hb G Hl Hwf Hsz Hm Hne Hpk h'. subst h'. cbn [handle].
  erewrite disconnect_with_peer; try eassumption.
  cbn [snd outbox store clientSessions parted sessions closeLog].
  split; [reflexivity|]. split; [apply get_set_same|].
  cbn [left_by with_clients clients].
  split; [apply get_delete_same|].
  split; [now rewrite get_delete_other|].
  split; [apply sock_get_delete_same | reflexivity].
Qed.

End HandlerLeave.

(** ** The WebSocket handler: the last member, and leaving twice *)

Section HandlerLast.
Import JsMap JsMapFacts.
Local Open Scope Z_scope.
Local Open Scope string_scope.

Variable P : Type.
Variable prop : string -> P -> option string.

(** X23. A [session_close] or a socket close from a socket that is bound
    to no session changes nothing and sends nothing. A handled socket
    close, and a [session_close] that ends normally, leave the socket
    unbound; so of two closes of a socket in a row the second has no
    effect and the peer is told once. *)
Theorem leaving_twice (clk : Clock) (sock : Socket) :
  (forall h message,
     SockMap.get sock (clientSessions h) = None ->
     handleSessionClose prop clk sock message h = (Some tt, h) /\
     handleDisconnect clk sock h = (Some tt, h)) /\
  (forall h : Handler P,
     fst (handleDisconnect clk sock h) = Some tt /\
     SockMap.get sock (clientSessions (snd (handleDisconnect clk sock h)))
     = None) /\
  (forall h message,
     fst (handleSessionClose prop clk sock message h) = Some tt ->
     SockMap.get sock
       (clientSessions (snd (handleSessionClose prop clk sock message h)))
     = None) /\
  (forall clk' (h : Handler P),
     handleDisconnect clk' sock (snd (handleDisconnect clk sock h)) =
     (Some tt, snd (handleDisconnect clk sock h))).
Proof.
  assert (Unbound : forall clk0 (h : Handler P),
            SockMap.get sock (clientSessions h) = None ->
            handleDisconnect clk0 sock h = (Some tt, h)).
  { intros clk0 h Hn.
    unfold handleDisconnect, hbind, clientSessions_get. now rewrite Hn. }
  assert (After' : forall h : Handler P, exists h1,
            handleDisconnect clk sock h = (Some tt, h1) /\
            SockMap.get sock (clientSessions h1) = None).
  { intros h. unfold handleDisconnect, hbind at 1, clientSessions_get.
    destruct (SockMap.get sock (clientSessions h)) as [[sid cid]|] eqn:Hb.
    - unfold hbind. rewrite lift_eq.
      destruct (fst (getOtherClient sid cid (t_check1 clk) (store h)));
        cbn [send hret]; rewrite lift_eq; cbn;
        eexists; (split; [reflexivity | apply sock_get_delete_same]).
    - cbn. exists h. split; [reflexivity | exact Hb]. }
  assert (After : forall h : Handler P,
            fst (handleDisconnect clk sock h) = Some tt /\
            SockMap.get sock
              (clientSessions (snd (handleDisconnect clk sock h))) = None).
  { intros h. destruct (After' h) as (h1 & -> & Hn). now split. }
  split; [|split; [exact After|split]].
  - intros h message Hn. split; [|now apply Unbound].
    unfold handleSessionClose, hbind, clientSessions_get. now rewrite Hn.
  - intros h message.
    assert (Hc : exists r h1,
              handleSessionClose prop clk sock message h = (r, h1) /\
              (r = Some tt -> SockMap.get sock (clientSessions h1) = None)).
    { unfold handleSessionClose, hbind at 1, clientSessions_get.
      destruct (SockMap.get sock (clientSessions h)) as [[sid cid]|] eqn:Hb.
      - unfold hbind. rewrite lift_eq.
        destruct (fst (getOtherClient sid cid (t_check1 clk) (store h)));
          [destruct (msg_payload message)|];
          cbn [send hret throw]; rewrite ?lift_eq; cbn;
          do 2 eexists; (split; [reflexivity|]);
          try discriminate; intros _; apply sock_get_delete_same.
      - cbn. exists (Some tt), h. split; [reflexivity | intros _; exact Hb]. }
    destruct Hc as (r & h1 & -> & Hn). exact Hn.
  - intros clk' h. apply Unbound. apply After.
Qed.

(** X27. When the socket of the only member of a live session closes,
    nothing is sent, the session is deleted from the registry without any
    socket being closed by the server, and the socket is unbound; from then
    on [validateToken] answers [false] for that session id, whatever
    token is presented. *)
Theorem disconnect_of_last_member (clk : Clock) (sock : Socket)
    (sid cid : string) (s : Session) (me : ClientConnection) (h : Handler P) :
  SockMap.get sock (clientSessions h) = Some (sid, cid) ->
  JsMap.get sid (sessions (store h)) = Some s ->
  clients s = [(cid, me)] ->
  t_check1 clk <= expiresAt s ->
  let h' := handle prop clk (OnClose P sock) h in
  outbox h' = outbox h /\
  sessions (store h') = JsMap.delete sid (sessions (store h)) /\
  JsMap.get sid (sessions (store h')) = None /\
  closeLog (store h') = closeLog (store h) /\
  SockMap.get sock (clientSessions h') = None /\
  (forall tok now, fst (validateToken sid tok now (store h')) = false).
Proof.
  intros Hb G Hcl Hl h'.
  assert (E : h' = {| store := {| sessions := JsMap.delete sid (sessions (store h));
                                  totalSessionsCreated := totalSessionsCreated (store h);
                                  closeLog := closeLog (store h);
                                  consoleLog := consoleLog (store h) |};
                      clientSessions := SockMap.delete sock (clientSessions h);
                      outbox := outbox h |}).
  { subst h'. cbn [handle].
    unfold handleDisconnect, hbind at 1, clientSessions_get. rewrite Hb.
    unfold hbind at 1.
    rewrite lift_eq,
      (@getOtherClient_live_eq sid cid (t_check1 clk) s (store h) G Hl), Hcl.
    cbn [find fst snd negb]. rewrite String.eqb_refl.
    cbn [negb option_map fst snd]. rewrite with_store_same.
    unfold hbind. cbn [hret]. rewrite lift_eq, removeClient_eq, G, Hcl.
    cbn [JsMap.delete]. rewrite String.eqb_refl.
    cbn [JsMap.size length Nat.eqb snd clientSessions_delete with_store
         store clientSessions outbox deleted parted sessions
         totalSessionsCreated closeLog consoleLog].
    unfold deleted, parted.
    cbn [sessions totalSessionsCreated closeLog consoleLog].
    rewrite delete_set_same. unfold left_by, with_clients. cbn [clients].
    rewrite Hcl. cbn. rewrite String.eqb_refl. cbn. now rewrite app_nil_r. }
  rewrite E. cbn [outbox store sessions closeLog clientSessions].
  split; [reflexivity|]. split; [reflexivity|].
  split; [apply get_delete_same|]. split; [reflexivity|].
  split; [apply sock_get_delete_same|].
  intros tok now. rewrite validateToken_eq. cbn [sessions].
  now rewrite get_delete_same.
Qed.

End HandlerLast.

(** ** Concrete runs of the further properties *)

Section ExtraRuns.
Import JsMap JsMapFacts.
Local Open Scope Z_scope.
Local Open Scope string_scope.

Lemma wf_clients_pair : JsMap.wf (clients session_pair).
Proof.
  unfold wf. cbn. repeat constructor; cbn; intuition discriminate.
Qed.

Lemma addClient_new_member_witness :
  fst (addClient "S" "B" "Bob" 2%nat 1000 1000 st_single) = true /\
  JsMap.get "S" (sessions (snd (addClient "S" "B" "Bob" 2%nat 1000 1000 st_single)))
  = Some session_pair.
Proof.
  destruct (@addClient_new_member "S" "B" "Bob" 2%nat 1000 1000
              session_single st_single eq_refl ltac:(cbn; lia)
              ltac:(cbn; lia) eq_refl) as (H1 & H2 & _).
  split; [exact H1 | exact H2].
Defined.

Lemma addClient_outcome_witness :
  fst (addClient "S" "B" "Bob" 2%nat 1000 1000 st_single) = true /\
  snd (addClient "T" "B" "Bob" 2%nat 1000 1000 st_single) = st_single.
Proof.
  split.
  - apply (proj1 (@addClient_outcome "S" "B" "Bob" 2%nat 1000 1000 st_single)).
    exists session_single. repeat split; cbn; lia.
  - apply (proj2 (@addClient_outcome "T" "B" "Bob" 2%nat 1000 1000 st_single));
      [reflexivity | now left].
Defined.

Lemma getOtherClient_peer_witness :
  getOtherClient "S" "A" 2000 st_pair =
    (Some (mkClient "B" "Bob" 2%nat 1000), st_pair) /\
  getOtherClient "S" "B" 2000 st_pair =
    (Some (mkClient "A" "Alice" 1%nat 0), st_pair).
Proof.
  split.
  - apply (proj1 (@getOtherClient_peer "S" "A" 2000 session_pair
                    (mkClient "A" "Alice" 1%nat 0) st_pair eq_refl
                    ltac:(cbn; lia) wf_clients_pair ltac:(cbn; lia) eq_refl)
                 "B" (mkClient "B" "Bob" 2%nat 1000));
      [discriminate | reflexivity].
  - apply (proj1 (@getOtherClient_peer "S" "B" 2000 session_pair
                    (mkClient "B" "Bob" 2%nat 1000) st_pair eq_refl
                    ltac:(cbn; lia) wf_clients_pair ltac:(cbn; lia) eq_refl)
                 "A" (mkClient "A" "Alice" 1%nat 0));
      [discriminate | reflexivity].
Defined.

Lemma live_reads_leave_store_witness :
  getClients "S" 2000 st_pair =
    ([mkClient "A" "Alice" 1%nat 0; mkClient "B" "Bob" 2%nat 1000], st_pair) /\
  getSession "T" 2000 st_pair = (None, st_pair).
Proof.
  destruct (@live_reads_leave_store "S" 2000 st_pair)
    as (_ & _ & _ & _ & H).
  { right. exists session_pair. split; [reflexivity | cbn; lia]. }
  destruct (@live_reads_leave_store "T" 2000 st_pair) as (H' & _).
  { now left. }
  split; [exact H | exact H'].
Defined.

Lemma cleanup_closes_everything_witness :
  closeLog (snd (cleanup st_pair)) = [1%nat; 2%nat] /\
  sessions (snd (cleanup st_pair)) = [].
Proof.
  rewrite (@cleanup_closes_everything st_pair wf_st_pair). split; reflexivity.
Defined.

Lemma sweep_again_is_noop_witness :
  cleanupExpiredSessions 3600001
    (snd (cleanupExpiredSessions 3600001 st_pair)) =
  (tt, snd (cleanupExpiredSessions 3600001 st_pair)).
Proof.
  apply (@sweep_again_is_noop 3600001 3600001 st_pair wf_st_pair). lia.
Defined.

Lemma registry_is_keyed_witness :
  sessionId session_pair = "S" /\ expiresAt session_pair = 0 + 3600000.
Proof.
  destruct (@registry_is_keyed history_pair "S" session_pair eq_refl)
    as (H1 & H2 & _).
  split; [exact H1 | exact H2].
Defined.

Lemma identity_is_stable_witness :
  exists s, JsMap.get "S" (sessions st_single) = Some s /\
            same_identity s session_pair.
Proof.
  apply (proj1 (@identity_is_stable
                  [OpAddClient "S" "B" "Bob" 2%nat 1000 1000;
                   OpGetClients "S" 2000] "S" eq_refl st_single)).
  reflexivity.
Defined.

Lemma add_then_remove_witness :
  removeClient "S" "B"
    (snd (addClient "S" "B" "Bob" 2%nat 1000 1000 st_single)) =
  (tt, st_single).
Proof.
  apply (proj1 (@add_then_remove "S" "B" "Bob" 2%nat 1000 1000
                  session_single st_single eq_refl ltac:(cbn; lia) eq_refl)).
  reflexivity.
Defined.

Lemma removeClient_edges_witness :
  removeClient "S" "Z" st_pair = (tt, st_pair) /\
  JsMap.get "S" (sessions (snd (removeClient "S" "Z" st_created))) = None.
Proof.
  destruct (@removeClient_edges "S" "Z" st_pair) as (_ & Hnon & _).
  destruct (@removeClient_edges "S" "Z" st_created) as (_ & _ & Hempty).
  split.
  - apply (Hnon session_pair eq_refl eq_refl). cbn. lia.
  - exact (proj1 (Hempty (mkSession "S" "K" 0 3600000 []) eq_refl eq_refl)).
Defined.

End ExtraRuns.

Section HandlerRuns.
Import JsMap JsMapFacts.
Local Open Scope Z_scope.
Local Open Scope string_scope.

Lemma join_request_concrete t id tk tok cid dn :
  truthy (Some tok) = Some tok -> truthy (Some cid) = Some cid ->
  truthy (Some dn) = Some dn ->
  Z.abs (t - 1000) <= 300000 ->
  join_request flat_prop (clock_at t id tk) (msg_join tok cid dn)
               "S" tok cid dn.
Proof.
  intros Ht Hc Hd Hw. unfold join_request. split.
  - unfold stale. cbn [msg_timestamp msg_join clock_at t_now].
    destruct (Z.ltb_spec 300000 (Z.abs (t - 1000))); [lia|reflexivity].
  - split; [reflexivity|]. split; [reflexivity|].
    eexists. split; [reflexivity|]. cbn in *. repeat split; assumption.
Qed.

Lemma relay_request_concrete t id tk from to :
  truthy (Some from) = Some from -> truthy (Some to) = Some to ->
  Z.abs (t - 2000) <= 300000 ->
  relay_request (clock_at t id tk) (msg_offer from to) "S" from to.
Proof.
  intros Hf Ht Hw. unfold relay_request. split.
  - unfold stale. cbn [msg_timestamp msg_offer clock_at t_now].
    destruct (Z.ltb_spec 300000 (Z.abs (t - 2000))); [lia|reflexivity].
  - split; [now left|]. repeat split; assumption.
Qed.

Lemma timestamp_window_witness :
  handleMessage flat_prop (clock_at 300001 "T" "L") 1%nat (Parsed msg_create)
                (handler_init FlatPayload) =
  (Some tt, sent 1%nat (OutError 300001 "INVALID_TIMESTAMP"
                                 "Message timestamp too old")
                 (handler_init FlatPayload)).
Proof.
  apply (proj1 (@timestamp_window FlatPayload flat_prop (clock_at 300001 "T" "L")
                  1%nat msg_create (handler_init FlatPayload)) 0 eq_refl).
  cbn. lia.
Defined.

Lemma unreadable_frames_witness :
  handleMessage flat_prop (clock_at 0 "T" "L") 1%nat
    (Parsed (mkMessage (Some "ping") None None None (Some 0) None))
    (handler_init FlatPayload) =
  (Some tt, sent 1%nat (OutError 0 "UNKNOWN_MESSAGE_TYPE"
                                 "Unknown message type: ping")
                 (handler_init FlatPayload)).
Proof.
  destruct (@unreadable_frames FlatPayload flat_prop (clock_at 0 "T" "L") 1%nat
              (handler_init FlatPayload)) as (_ & _ & Hunknown & _).
  apply (Hunknown (mkMessage (Some "ping") None None None (Some 0) None)
                  "ping" eq_refl eq_refl).
  cbn. intuition discriminate.
Defined.

Lemma create_session_handled_witness :
  outbox h_created = [(1%nat, OutSessionCreated 0 "S" "K" 3600000)] /\
  store h_created = st_single.
Proof.
  unfold h_created. cbn [handle].
  rewrite (@create_session_handled FlatPayload flat_prop (clock_at 0 "S" "K") 1%nat
             msg_create [("clientId", "A"); ("displayName", "Alice")]
             "A" "Alice" (handler_init FlatPayload) eq_refl eq_refl eq_refl eq_refl
             ltac:(discriminate) eq_refl ltac:(discriminate)
             ltac:(cbn; lia)).
  split; reflexivity.
Defined.

Lemma join_with_bad_token_witness :
  handleMessage flat_prop (clock_at 1000 "T" "L") 2%nat
                (Parsed (msg_join "wrong" "B" "Bob")) h_created =
  (Some tt, sent 2%nat (OutError 1000 "INVALID_TOKEN"
                                 "Session token is invalid or expired")
                 h_created).
Proof.
  apply (@join_with_bad_token FlatPayload flat_prop (clock_at 1000 "T" "L") 2%nat
           (msg_join "wrong" "B" "Bob") "S" "wrong" "B" "Bob" h_created).
  - apply join_request_concrete; try reflexivity. cbn. lia.
  - right. exists session_single. split; [reflexivity|].
    split; [cbn; lia | discriminate].
Defined.

Lemma join_full_session_witness :
  handleMessage flat_prop (clock_at 1000 "T" "L") 3%nat
                (Parsed (msg_join "K" "C" "Carol")) h_paired =
  (Some tt, sent 3%nat (OutError 1000 "SESSION_FULL"
                                 "Session already has maximum clients")
                 h_paired).
Proof.
  apply (@join_full_session FlatPayload flat_prop (clock_at 1000 "T" "L") 3%nat
           (msg_join "K" "C" "Carol") "S" "K" "C" "Carol" session_pair
           h_paired).
  - apply join_request_concrete; try reflexivity. cbn. lia.
  - reflexivity.
  - reflexivity.
  - cbn. lia.
  - cbn. lia.
  - cbn. lia.
Defined.

Lemma join_pairs_the_peers_witness :
  outbox h_paired =
    [ (1%nat, OutSessionCreated 0 "S" "K" 3600000);
      (2%nat, OutSessionJoined "S" 1000 (Some "A") (Some "Alice"));
      (1%nat, OutPeerJoined "S" 1000 "B" "Bob") ] /\
  store h_paired = st_pair.
Proof.
  unfold h_paired. cbn [handle].
  rewrite (@join_pairs_the_peers FlatPayload flat_prop (clock_at 1000 "T" "L") 2%nat
             (msg_join "K" "B" "Bob") "S" "K" "B" "Bob" "A" session_single
             (mkClient "A" "Alice" 1%nat 0) h_created).
  - split; reflexivity.
  - apply join_request_concrete; try reflexivity. cbn. lia.
  - reflexivity.
  - reflexivity.
  - reflexivity.
  - discriminate.
  - cbn. lia.
  - cbn. lia.
  - cbn. lia.
Defined.

Lemma join_with_member_id_witness :
  outbox (snd (handleMessage flat_prop (clock_at 1000 "T" "L") 9%nat
                 (Parsed (msg_join "K" "A" "Mallory")) h_created)) =
    [ (1%nat, OutSessionCreated 0 "S" "K" 3600000);
      (9%nat, OutSessionJoined "S" 1000 None None) ] /\
  JsMap.get "S"
    (sessions (store (snd (handleMessage flat_prop (clock_at 1000 "T" "L")
                             9%nat (Parsed (msg_join "K" "A" "Mallory"))
                             h_created)))) =
    Some (mkSession "S" "K" 0 3600000
            [("A", mkClient "A" "Mallory" 9%nat 1000)]).
Proof.
  rewrite (@join_with_member_id FlatPayload flat_prop (clock_at 1000 "T" "L") 9%nat
             (msg_join "K" "A" "Mallory") "S" "K" "A" "Mallory"
             session_single (mkClient "A" "Alice" 1%nat 0) h_created).
  - split; reflexivity.
  - apply join_request_concrete; try reflexivity. cbn. lia.
  - reflexivity.
  - reflexivity.
  - reflexivity.
  - cbn. lia.
  - cbn. lia.
  - cbn. lia.
Defined.

Lemma relay_delivered_witness :
  handleMessage flat_prop (clock_at 2000 "T" "L") 1%nat
                (Parsed (msg_offer "A" "B")) h_paired =
  (Some tt, sent 2%nat (OutRelay (msg_offer "A" "B")) h_paired).
Proof.
  apply (@relay_delivered FlatPayload flat_prop (clock_at 2000 "T" "L") 1%nat
           (msg_offer "A" "B") "S" "A" "B" session_pair
           (mkClient "B" "Bob" 2%nat 1000) h_paired).
  - apply relay_request_concrete; try reflexivity. cbn. lia.
  - reflexivity.
  - cbn. lia.
  - cbn. lia.
  - reflexivity.
  - reflexivity.
Defined.

Lemma relay_refused_witness :
  handleMessage flat_prop (clock_at 2000 "T" "L") 7%nat
                (Parsed (msg_offer "Z" "B")) h_paired =
    (Some tt, sent 7%nat (OutError 2000 "UNAUTHORIZED" "Sender not in session")
                   h_paired) /\
  handleMessage flat_prop (clock_at 2000 "T" "L") 1%nat
                (Parsed (msg_offer "A" "Z")) h_paired =
    (Some tt, sent 1%nat (OutError 2000 "PEER_NOT_FOUND"
                                   "Recipient not found in session")
                   h_paired).
Proof.
  split.
  - apply (proj1 (@relay_refused FlatPayload flat_prop (clock_at 2000 "T" "L") 7%nat
                    (msg_offer "Z" "B") "S" "Z" "B" h_paired
                    ltac:(apply relay_request_concrete;
                          try reflexivity; cbn; lia))).
    right. exists session_pair. split; [reflexivity|].
    split; [cbn; lia | reflexivity].
  - apply (proj2 (@relay_refused FlatPayload flat_prop (clock_at 2000 "T" "L") 1%nat
                    (msg_offer "A" "Z") "S" "A" "Z" h_paired
                    ltac:(apply relay_request_concrete;
                          try reflexivity; cbn; lia))
                 session_pair eq_refl);
      [cbn; lia | cbn; lia | reflexivity | reflexivity].
Defined.

Lemma close_notifies_peer_witness :
  outbox (snd (handleMessage flat_prop (clock_at 3000 "T" "L") 2%nat
                 (Parsed (msg_close (Some [("reason", "done")]))) h_paired)) =
  (outbox h_paired ++ [(1%nat, OutPeerLeft "S" 3000 "B" "done")])%list.
Proof.
  apply (@close_notifies_peer FlatPayload flat_prop (clock_at 3000 "T" "L") 2%nat
           (msg_close (Some [("reason", "done")])) [("reason", "done")]
           "S" "B" "A" session_pair (mkClient "A" "Alice" 1%nat 0) h_paired
           eq_refl eq_refl eq_refl eq_refl eq_refl ltac:(cbn; lia)
           wf_clients_pair ltac:(cbn; lia) eq_refl ltac:(discriminate)
           eq_refl).
Defined.

Lemma close_without_payload_fails_witness :
  handleMessage flat_prop (clock_at 3000 "T" "L") 2%nat
                (Parsed (msg_close None)) h_paired =
  (Some tt, sent 2%nat (OutError 3000 "INVALID_MESSAGE"
                                 "Failed to parse message") h_paired).
Proof.
  apply (@close_without_payload_fails FlatPayload flat_prop (clock_at 3000 "T" "L")
           2%nat (msg_close None) "S" "B" "A" session_pair
           (mkClient "A" "Alice" 1%nat 0) h_paired
           eq_refl eq_refl eq_refl eq_refl eq_refl ltac:(cbn; lia)
           wf_clients_pair ltac:(cbn; lia) eq_refl ltac:(discriminate)
           eq_refl).
Defined.

Lemma leaving_twice_witness :
  handleDisconnect (clock_at 3000 "T" "L") 7%nat h_paired = (Some tt, h_paired) /\
  handleSessionClose flat_prop (clock_at 3000 "T" "L") 7%nat (msg_close None)
                     h_paired = (Some tt, h_paired).
Proof.
  destruct (@leaving_twice FlatPayload flat_prop (clock_at 3000 "T" "L") 7%nat)
    as (Hunbound & _).
  destruct (Hunbound h_paired (msg_close None) eq_refl) as [H1 H2].
  split; [exact H2 | exact H1].
Defined.

Lemma handler_keeps_registry_bounded_witness :
  (JsMap.size (clients session_pair) <= 2)%nat.
Proof.
  destruct (@handler_keeps_registry_bounded FlatPayload flat_prop
              [ (clock_at 0 "S" "K", OnMessage 1%nat (Parsed msg_create));
                (clock_at 1000 "T" "L",
                 OnMessage 2%nat (Parsed (msg_join "K" "B" "Bob"))) ])
    as (_ & _ & H).
  exact (H "S" session_pair eq_refl).
Defined.

Lemma disconnect_notifies_peer_witness :
  outbox (handle flat_prop (clock_at 3000 "T" "L") (OnClose FlatPayload 2%nat) h_paired) =
  (outbox h_paired ++ [(1%nat, OutPeerDisconnected "S" 3000 "B")])%list.
Proof.
  apply (@disconnect_notifies_peer FlatPayload flat_prop (clock_at 3000 "T" "L") 2%nat
           "S" "B" "A" session_pair (mkClient "A" "Alice" 1%nat 0) h_paired
           eq_refl eq_refl ltac:(cbn; lia) wf_clients_pair ltac:(cbn; lia)
           eq_refl ltac:(discriminate) eq_refl).
Defined.

Lemma disconnect_of_last_member_witness :
  JsMap.get "S"
    (sessions (store (handle flat_prop (clock_at 3000 "T" "L")
                             (OnClose FlatPayload 1%nat) h_created))) = None /\
  outbox (handle flat_prop (clock_at 3000 "T" "L") (OnClose FlatPayload 1%nat) h_created)
  = outbox h_created.
Proof.
  destruct (@disconnect_of_last_member FlatPayload flat_prop (clock_at 3000 "T" "L")
              1%nat "S" "A" session_single (mkClient "A" "Alice" 1%nat 0)
              h_created eq_refl eq_refl eq_refl ltac:(cbn; lia))
    as (H1 & _ & H3 & _).
  split; [exact H3 | exact H1].
Defined.

End HandlerRuns.
